(** * nulink-watcher: the Ethereum listener of the cross-chain watcher

    A shallow embedding of [watcher/chains/ethereum] (the listener: block
    polling, epoch synchronisation, registry enumeration and the two
    persisted files) and the properties of its specification.

    Layout: Go primitives, the data model, the effect monad, the file
    system, the RLP codec, the ranking, the listener functions; then the
    lemmas, grouped by component. *)

From Stdlib Require Import ZArith NArith List Lia Bool.
From Stdlib Require Import Strings.Byte.
From stdpp Require Import base option gmap strings list sorting pretty.

Local Open Scope Z_scope.

(** ** Go primitives *)

(** A Go [error] value: its message.  A nil error is [None] in
    [option error]. *)
Definition error := string.

(** A Go call [v, err := f()] returns both components; which of them is
    meaningful is up to the callee, so a call is a pair. *)
Definition result (A : Type) : Type := A * option error.

Abbreviation bytes := (list byte).

#[global] Instance byte_eq_dec : EqDecision byte.
Proof. intros x y. destruct (Byte.eqb x y) eqn:E.
  - left. now apply Byte.byte_dec_bl.
  - right. intros ->. now rewrite (Byte.byte_dec_lb eq_refl) in E.
Defined.

(** [bytes.Equal] *)
Definition bytes_Equal (a b : bytes) : bool := bool_decide (a = b).

(** [big.Int.Uint64]: the low 64 bits of the magnitude. *)
Definition Uint64 (x : Z) : Z := Z.abs x mod 2 ^ 64.

(** Two's complement reading of a 64-bit pattern. *)
Definition int64_wrap (x : Z) : Z := (x + 2 ^ 63) mod 2 ^ 64 - 2 ^ 63.

(** [big.Int.Int64]: [v := int64(low64(abs x)); if neg { v = -v }]. *)
Definition Int64 (x : Z) : Z :=
  let v := int64_wrap (Z.abs x mod 2 ^ 64) in
  if x <? 0 then int64_wrap (- v) else v.

(** [[]byte(s)] *)
Definition bytes_of_string (s : string) : bytes := String.list_byte_of_string s.

(** ** Data model: [substrate.StakeInfo] and [substrate.StakeInfos]

    The declaration of [substrate.StakeInfo] is not among the sources; the
    fields are the ones of the composite literals in [GetStakeInfo] and
    [getDepositEventsForBlock], in that order.  [Coinbase] is a
    [types.AccountID] (32 bytes), [LockedBalance] a [types.U128] (a wrapped
    pointer to [big.Int]), [WorkCount] an unsigned 32-bit counter.  Go holds the
    records behind pointers; no function below observes the sharing, so a
    record is a value. *)
Record StakeInfo := mkStakeInfo {
  Coinbase : bytes;
  WorkBase : bytes;
  IsWork : bool;
  LockedBalance : Z;
  WorkCount : Z
}.

Abbreviation StakeInfos := (list StakeInfo).

#[global] Instance StakeInfo_eq_dec : EqDecision StakeInfo.
Proof. solve_decision. Defined.

(** [li.IsWork = v] *)
Definition set_IsWork (v : bool) (li : StakeInfo) : StakeInfo :=
  {| Coinbase := Coinbase li; WorkBase := WorkBase li; IsWork := v;
     LockedBalance := LockedBalance li; WorkCount := WorkCount li |}.

(** [types.NewAccountID(b)]: copies [b] into a zeroed 32-byte array. *)
Definition NewAccountID (b : bytes) : bytes :=
  take 32 (b ++ replicate 32 x00).

(** [types.NewU128(i)]: wraps the integer, without truncation. *)
Definition NewU128 (i : Z) : Z := i.

(** The values a Go program can hold in a [StakeInfo]: the array has its
    32 bytes and the counter fits its 32 bits. *)
Definition wf_StakeInfo (s : StakeInfo) : Prop :=
  length (Coinbase s) = 32%nat ∧ 0 <= WorkCount s < 2 ^ 32.

(** ** Configuration

    [params] (retry limit, retry interval, epoch length) is not among the
    sources: its constants are parameters of the model.  [EpochLength] is
    a divisor in the code, so it is not zero. *)
Record Params := mkParams {
  BlockRetryLimit : Z;
  BlockRetryInterval : Z;
  EpochLength : Z
}.

Record EthereumConfig := mkEthereumConfig {
  StartBlock : Z;
  BlockConfirmations : Z;
  DepositContractAddr : string
}.

(** The [Listener], without its two connections and its stop channel,
    which are the environment below. *)
Record Listener := mkListener {
  Config : EthereumConfig;
  LatestBlockPath : string;
  LastStakeInfoPath : string
}.

(** ** Effects *)

Inductive Level := LvlError | LvlWarn | LvlInfo | LvlDebug.

(** What a run does to the outside, in order. *)
Inductive Event :=
| EvLog (lvl : Level) (msg : string)
| EvSleep (d : Z)
| EvStopSend
| EvSubmitTx (payload : StakeInfos) (res : option error)
| EvMkdirAll (dir : string)
| EvWriteFile (file : string) (data : bytes).

(** The file system, as far as [os.Stat], [os.MkdirAll],
    [ioutil.ReadFile] and [ioutil.WriteFile] see it.  [denied] holds the
    paths on which every operation fails (permissions, a broken disk). *)
Record FS := mkFS {
  files : gmap string bytes;
  dirs : gset string;
  denied : gset string
}.

(** The mutable state of the process: the file system, the package-level
    accumulator [stakeInfoList], and the trace of effects so far. *)
Record World := mkWorld {
  fs : FS;
  stakeInfoList : StakeInfos;
  trace : list Event
}.

(** A Go function either returns or panics. *)
Inductive Res (A : Type) :=
| Val (a : A)
| Panic (msg : string).
Arguments Val {A} a.
Arguments Panic {A} msg.

Definition M (A : Type) : Type := World → Res A * World.

#[global] Instance M_ret : MRet M := λ A a w, (Val a, w).
#[global] Instance M_bind : MBind M := λ A B f m w,
  match m w with
  | (Val a, w') => f a w'
  | (Panic msg, w') => (Panic msg, w')
  end.

Definition panic {A} (msg : string) : M A := λ w, (Panic msg, w).

Definition emit (e : Event) : M unit := λ w,
  (Val tt, {| fs := fs w; stakeInfoList := stakeInfoList w;
              trace := trace w ++ [e] |}).

Definition log (lvl : Level) (msg : string) : M unit := emit (EvLog lvl msg).

Definition get_fs : M FS := λ w, (Val (fs w), w).

Definition put_fs (f : FS) : M unit := λ w,
  (Val tt, {| fs := f; stakeInfoList := stakeInfoList w; trace := trace w |}).

Definition get_stakeInfoList : M StakeInfos := λ w, (Val (stakeInfoList w), w).

Definition put_stakeInfoList (l : StakeInfos) : M unit := λ w,
  (Val tt, {| fs := fs w; stakeInfoList := l; trace := trace w |}).

(** ** The file system operations *)

Inductive StatResult := StatOk | StatNotExist | StatErr (e : error).

(** [os.Stat], with [os.IsNotExist] already applied to its error. *)
Definition os_Stat (name : string) : M StatResult :=
  f ← get_fs;
  if decide (name ∈ denied f) then mret (StatErr "permission denied")
  else if decide (is_Some (files f !! name) ∨ name ∈ dirs f) then mret StatOk
  else mret StatNotExist.

(** [os.MkdirAll]: fails on the empty path, on a denied path and where a
    file is in the way. *)
Definition os_MkdirAll (dir : string) : M (option error) :=
  f ← get_fs;
  if decide (dir = EmptyString ∨ dir ∈ denied f ∨ is_Some (files f !! dir))
  then mret (Some "mkdir failed")
  else
    put_fs {| files := files f; dirs := {[dir]} ∪ dirs f; denied := denied f |};;
    emit (EvMkdirAll dir);;
    mret None.

(** [ioutil.WriteFile]: replaces the whole content. *)
Definition ioutil_WriteFile (name : string) (data : bytes) : M (option error) :=
  f ← get_fs;
  if decide (name ∈ denied f ∨ name ∈ dirs f)
  then mret (Some "write failed")
  else
    put_fs {| files := <[name := data]> (files f); dirs := dirs f;
              denied := denied f |};;
    emit (EvWriteFile name data);;
    mret None.

(** [ioutil.ReadFile] *)
Definition ioutil_ReadFile (name : string) : M (result bytes) :=
  f ← get_fs;
  if decide (name ∈ denied f) then mret ([], Some "read failed")
  else match files f !! name with
       | Some data => mret (data, None)
       | None => mret ([], Some "read failed")
       end.

(** [dir, _ := filepath.Split(file)]: everything up to and including the
    last separator; empty when there is none. *)
Fixpoint filepath_Split_dir (file : string) : string :=
  match file with
  | EmptyString => EmptyString
  | String c rest =>
      let d := filepath_Split_dir rest in
      if bool_decide (d = EmptyString)
      then (if bool_decide (String c EmptyString = "/") then "/" else EmptyString)
      else String c d
  end.

(** ** The serializer: [rlp.EncodeToBytes] and [rlp.DecodeBytes]

    go-ethereum's [rlp] package is a library, not part of the repository.
    It is modelled by the RLP format itself: an item is a byte string or
    a list of items; a value of a Go type is first turned into an item
    (a struct is the list of its fields, an unsigned integer its minimal
    big-endian bytes, a boolean the integer 0 or 1), then the item is
    written out.  The decoder is the strict one: it refuses encodings
    that are not canonical. *)

#[warnings="-register-all"]
Inductive item :=
| Str (s : bytes)
| Lst (l : list item).

Definition byte_of_N (n : N) : byte := default x00 (Byte.of_N (n mod 256)).

(** Minimal big-endian bytes of a number (none for zero). *)
Fixpoint be_bytes_go (fuel : nat) (n : N) (acc : bytes) : bytes :=
  match fuel with
  | O => acc
  | S fuel' =>
      if (n =? 0)%N then acc
      else be_bytes_go fuel' (n / 256)%N (byte_of_N n :: acc)
  end.

Definition be_bytes (n : N) : bytes := be_bytes_go (N.to_nat (N.size n)) n [].

Definition be_value (bs : bytes) : N :=
  foldl (λ acc b, acc * 256 + Byte.to_N b)%N 0%N bs.

(** The header of a payload of [len] bytes; [base] is [0x80] for a
    string and [0xc0] for a list. *)
Definition rlp_header (base : N) (len : nat) : bytes :=
  let n := N.of_nat len in
  if (n <? 56)%N then [byte_of_N (base + n)]
  else let lb := be_bytes n in
       byte_of_N (base + 55 + N.of_nat (length lb)) :: lb.

Fixpoint rlp_encode (it : item) : bytes :=
  match it with
  | Str s =>
      match s with
      | [b] => if (Byte.to_N b <? 128)%N then [b] else rlp_header 128 1 ++ s
      | _ => rlp_header 128 (length s) ++ s
      end
  | Lst l =>
      let payload := concat (map rlp_encode l) in
      rlp_header 192 (length payload) ++ payload
  end.

Definition split_at (n : nat) (bs : bytes) : option (bytes * bytes) :=
  if decide (n ≤ length bs)%nat then Some (take n bs, drop n bs) else None.

(** The size of a long payload: [ll] big-endian bytes, without a leading
    zero, and worth at least 56. *)
Definition rlp_decode_size (ll : nat) (bs : bytes) : option (nat * bytes) :=
  '(lb, rest) ← split_at ll bs;
  match lb with
  | [] => None
  | b :: _ =>
      if (Byte.to_N b =? 0)%N then None
      else if (be_value lb <? 56)%N then None
      else Some (N.to_nat (be_value lb), rest)
  end.

Fixpoint rlp_decode_item (fuel : nat) (bs : bytes) : option (item * bytes) :=
  match fuel with
  | O => None
  | S fuel' =>
      match bs with
      | [] => None
      | b :: rest =>
          let t := Byte.to_N b in
          if (t <? 128)%N then Some (Str [b], rest)
          else if (t <? 184)%N then
            '(s, rest') ← split_at (N.to_nat (t - 128)) rest;
            match s with
            | [c] => if (Byte.to_N c <? 128)%N then None else Some (Str s, rest')
            | _ => Some (Str s, rest')
            end
          else if (t <? 192)%N then
            '(n, rest1) ← rlp_decode_size (N.to_nat (t - 183)) rest;
            '(s, rest') ← split_at n rest1;
            Some (Str s, rest')
          else if (t <? 248)%N then
            '(p, rest') ← split_at (N.to_nat (t - 192)) rest;
            l ← rlp_decode_list fuel' p;
            Some (Lst l, rest')
          else
            '(n, rest1) ← rlp_decode_size (N.to_nat (t - 247)) rest;
            '(p, rest') ← split_at n rest1;
            l ← rlp_decode_list fuel' p;
            Some (Lst l, rest')
      end
  end
with rlp_decode_list (fuel : nat) (bs : bytes) : option (list item) :=
  match fuel with
  | O => match bs with [] => Some [] | _ => None end
  | S fuel' =>
      match bs with
      | [] => Some []
      | _ =>
          '(it, rest) ← rlp_decode_item fuel' bs;
          l ← rlp_decode_list fuel' rest;
          Some (it :: l)
      end
  end.

(** One item, and nothing after it. *)
Definition rlp_decode (bs : bytes) : option item :=
  match rlp_decode_item (2 * length bs) bs with
  | Some (it, []) => Some it
  | _ => None
  end.

(** Unsigned integers ([uint32], and the magnitude of a [big.Int]). *)
Definition uint_to_item (n : Z) : item := Str (be_bytes (Z.to_N n)).

Definition uint_of_item (it : item) : option Z :=
  match it with
  | Str [] => Some 0
  | Str (b :: s) =>
      if (Byte.to_N b =? 0)%N then None else Some (Z.of_N (be_value (b :: s)))
  | Lst _ => None
  end.

Definition bool_to_item (b : bool) : item := uint_to_item (if b then 1 else 0).

Definition bool_of_item (it : item) : option bool :=
  n ← uint_of_item it;
  if n =? 0 then Some false else if n =? 1 then Some true else None.

(** A [StakeInfo] is the list of its five fields; [types.U128], a struct
    around one [big.Int], is a list of one integer. *)
Definition StakeInfo_to_item (s : StakeInfo) : item :=
  Lst [Str (Coinbase s); Str (WorkBase s); bool_to_item (IsWork s);
       Lst [uint_to_item (LockedBalance s)]; uint_to_item (WorkCount s)].

Definition StakeInfo_of_item (it : item) : option StakeInfo :=
  match it with
  | Lst [Str cb; Str wb; iw; Lst [lb]; wc] =>
      if decide (length cb = 32%nat) then
        iw' ← bool_of_item iw;
        lb' ← uint_of_item lb;
        wc' ← uint_of_item wc;
        if wc' <? 2 ^ 32
        then Some {| Coinbase := cb; WorkBase := wb; IsWork := iw';
                     LockedBalance := lb'; WorkCount := wc' |}
        else None
      else None
  | _ => None
  end.

(** [rlp.EncodeToBytes(infos)]: a negative [big.Int] is refused. *)
Definition rlp_EncodeToBytes (infos : StakeInfos) : result bytes :=
  if forallb (λ s, 0 <=? LockedBalance s) infos
  then (rlp_encode (Lst (map StakeInfo_to_item infos)), None)
  else ([], Some "rlp: cannot encode negative big.Int").

(** [rlp.DecodeBytes(data, &infos)] *)
Definition rlp_DecodeBytes (data : bytes) : result StakeInfos :=
  match rlp_decode data with
  | Some (Lst l) =>
      match mapM StakeInfo_of_item l with
      | Some infos => (infos, None)
      | None => ([], Some "rlp: input does not fit the type")
      end
  | _ => ([], Some "rlp: malformed input")
  end.

(** ** Staker ranking *)

(** Modelled from the spec: [StakeInfos.LockedBalanceTop20] is declared in
    package [substrate], which is not among the sources.  The spec (4.4)
    gives its output as "a snapshot of length min(20, input length),
    sorted descending by lockedBalance; stable with respect to input
    order for equal balances", with "no side effects, no errors".
    [insert_desc] puts a record before the first one whose balance is not
    larger, so that of two equal balances the earlier record stays first. *)
Fixpoint insert_desc (x : StakeInfo) (l : StakeInfos) : StakeInfos :=
  match l with
  | [] => [x]
  | y :: r =>
      if LockedBalance x <? LockedBalance y then y :: insert_desc x r
      else x :: y :: r
  end.

(** Modelled from the spec: the stable sort of [LockedBalanceTop20],
    "sorted descending by lockedBalance; stable with respect to input
    order for equal balances" (4.4); its code is not among the sources. *)
Definition sort_desc (l : StakeInfos) : StakeInfos := foldr insert_desc [] l.

(** Modelled from the spec: [StakeInfos.LockedBalanceTop20], "the top 20
    by lockedBalance (descending), ties broken by original enumeration
    order" (3), of "length min(20, input length)" (4.4); its code is not
    among the sources. *)
Definition LockedBalanceTop20 (s : StakeInfos) : StakeInfos :=
  take 20 (sort_desc s).

(** ** The persistence layer *)

Definition fileExists (fileName : string) : M (result bool) :=
  st ← os_Stat fileName;
  match st with
  | StatNotExist => mret (false, None)
  | StatErr e => mret (false, Some e)
  | StatOk => mret (true, None)
  end.

Definition ReadStakeInfos (file : string) : M (result StakeInfos) :=
  let stakeInfoList : StakeInfos := [] in
  '(exists_, err) ← fileExists file;
  match err with
  | Some e => mret (stakeInfoList, Some e)
  | None =>
      if negb exists_ then
        log LvlWarn "stake info file does not exist";;
        mret (stakeInfoList, err)
      else
        '(data, err) ← ioutil_ReadFile file;
        match err with
        | Some e =>
            log LvlError "read stake info list from file filed";;
            mret (stakeInfoList, Some e)
        | None =>
            if (length data =? 0)%nat then
              log LvlWarn "stake info file is empty";;
              mret (stakeInfoList, err)
            else
              let '(infos, err') := rlp_DecodeBytes data in
              match err' with
              | Some e =>
                  log LvlError "rlp decode stake info list failed";;
                  mret (stakeInfoList, Some e)
              | None => mret (infos, err)
              end
        end
  end.

(** The common head of the two writers: create the directory if [os.Stat]
    says the file does not exist. *)
Definition ensure_dir (file : string) : M (option error) :=
  st ← os_Stat file;
  match st with
  | StatNotExist => os_MkdirAll (filepath_Split_dir file)
  | _ => mret None
  end.

Definition WriteStakeInfos (file : string) (infos : StakeInfos) : M (option error) :=
  err ← ensure_dir file;
  match err with
  | Some e => mret (Some e)
  | None =>
      let '(data, err) := rlp_EncodeToBytes infos in
      match err with
      | Some e =>
          log LvlError "json marshal stake info list failed";;
          mret (Some e)
      | None =>
          err ← ioutil_WriteFile file data;
          match err with
          | Some e =>
              log LvlError "write stake info list to file filed";;
              mret (Some e)
          | None =>
              log LvlInfo "write stake info list to file succeeded";;
              mret None
          end
      end
  end.

Definition WriteLatestBlock (file : string) (number : Z) : M (option error) :=
  err ← ensure_dir file;
  match err with
  | Some e => mret (Some e)
  | None =>
      let data := bytes_of_string (pretty number) in
      err ← ioutil_WriteFile file data;
      match err with
      | Some e => mret (Some e)
      | None => mret None
      end
  end.

(** ** The environment of one pass of the polling loop

    What the two RPC clients and the stop channel answer while the loop
    body runs once.  [Stakers] and [StakerInfo] carry the loop index of
    the call, so that two look-ups of one address may differ.  A call
    keeps Go's shape, value and error together: [GetStakeInfo] goes on to
    use the value next to a non-nil error.  The contract binding
    ([nucypher]) and the clients are not among the sources. *)
Record Log := mkLog {
  Topics : list bytes;
  Data : bytes
}.

(** The struct of [nc.StakerInfo]; [Value] is a pointer and may be nil. *)
Record StakerInfoT := mkStakerInfoT {
  Value : option Z
}.

Record Env := mkEnv {
  StopRequested : bool;
  LatestBlock : result Z;
  FilterLogs : Z → result (list Log);
  NewNucypher : option error;
  GetStakersLength : result Z;
  Stakers : Z → result bytes;
  StakerInfo : Z → bytes → result StakerInfoT;
  SubmitTx : StakeInfos → option error
}.

(** [l.Subconn.SubmitTx(substrate.UpdateStakeInfo, payload)], recorded in
    the trace with its answer. *)
Definition Subconn_SubmitTx (env : Env) (payload : StakeInfos) : M (option error) :=
  let err := SubmitTx env payload in
  emit (EvSubmitTx payload err);;
  mret err.

(** ** The stake snapshot builder *)

(** The body of the enumeration loop of [GetStakeInfo], at index [i]. *)
Definition GetStakeInfo_body (env : Env) (i : Z) (stakeInfos : StakeInfos)
  : M StakeInfos :=
  let '(staker, err) := Stakers env i in
  match err with
  | Some _ => log LvlError "failed to get stakes"
  | None => mret tt
  end;;
  let '(info, err) := StakerInfo env i staker in
  match err with
  | Some _ => log LvlError "failed to get stake info"
  | None => mret tt
  end;;
  match Value info with
  | None => panic "invalid memory address or nil pointer dereference"
  | Some v =>
      log LvlDebug "succeeded to import stake info";;
      mret (stakeInfos ++ [{| Coinbase := NewAccountID staker;
                              WorkBase := staker;
                              IsWork := true;
                              LockedBalance := NewU128 v;
                              WorkCount := 0 |}])
  end.

(** [for i := int64(0); i < n; i++ { body }], with [count] passes left. *)
Fixpoint GetStakeInfo_loop (env : Env) (count : nat) (i : Z)
    (stakeInfos : StakeInfos) : M StakeInfos :=
  match count with
  | O => mret stakeInfos
  | S count' =>
      stakeInfos' ← GetStakeInfo_body env i stakeInfos;
      GetStakeInfo_loop env count' (i + 1) stakeInfos'
  end.

(** The [err] returned at the end is the one of [GetStakersLength]: the
    two [err] of the loop body are declared in the scope of the body. *)
Definition GetStakeInfo (env : Env) : M (result StakeInfos) :=
  let stakeInfos : StakeInfos := [] in
  match NewNucypher env with
  | Some _ =>
      log LvlError "failed to new nucypher";;
      mret (stakeInfos, None)
  | None =>
      let '(length, err) := GetStakersLength env in
      match err with
      | Some _ =>
          log LvlError "failed to get stakes length";;
          mret (stakeInfos, None)
      | None =>
          log LvlInfo "succeeded to get stakes length";;
          stakeInfos' ← GetStakeInfo_loop env
                          (Z.to_nat (Z.quot (Int64 length) 50)) 0 stakeInfos;
          mret (stakeInfos', err)
      end
  end.

(** ** The epoch synchronizer *)

(** The inner loop of the diff: a match [continue]s this
    loop, not the outer one, so it decides nothing. *)
Fixpoint stopped_inner (li : StakeInfo) (top20StakeInfos : StakeInfos) : unit :=
  match top20StakeInfos with
  | [] => tt
  | info :: rest =>
      if bytes_Equal (WorkBase li) (WorkBase info)
      then stopped_inner li rest
      else stopped_inner li rest
  end.

(** The outer loop of the diff, from [stoppedStaker] so far. *)
Fixpoint stopped_loop (lastInfos top20StakeInfos stoppedStaker : StakeInfos)
  : StakeInfos :=
  match lastInfos with
  | [] => stoppedStaker
  | li :: rest =>
      let _ := stopped_inner li top20StakeInfos in
      let li := set_IsWork false li in
      stopped_loop rest top20StakeInfos (stoppedStaker ++ [li])
  end.

Definition syncStakeInfos (P : Params) (l : Listener) (env : Env)
    (latestBlock : Z) : M (option error) :=
  if negb (Uint64 latestBlock mod EpochLength P =? 0) then mret None
  else
    '(stakeInfos, err) ← GetStakeInfo env;
    match err with
    | Some e => mret (Some e)
    | None =>
        let top20StakeInfos := LockedBalanceTop20 stakeInfos in
        '(lastInfos, err) ← ReadStakeInfos (LastStakeInfoPath l);
        match err with
        | Some e => mret (Some e)
        | None =>
            let stoppedStaker := stopped_loop lastInfos top20StakeInfos [] in
            let infos := top20StakeInfos ++ stoppedStaker in
            err ← Subconn_SubmitTx env infos;
            match err with
            | Some e =>
                log LvlError "failed to update stake info to nulink";;
                mret (Some e)
            | None =>
                log LvlInfo "succeeded to update stake info to nulink";;
                err ← WriteStakeInfos (LastStakeInfoPath l) top20StakeInfos;
                match err with
                | Some e => mret (Some e)
                | None =>
                    err ← WriteLatestBlock (LatestBlockPath l) latestBlock;
                    match err with
                    | Some e =>
                        log LvlError "Failed to write latest block";;
                        mret (Some e)
                    | None => mret None
                    end
                end
            end
        end
    end.

(** ** The deposit-event path *)

(** One pass of the loop over the logs: [lg.Topics[1]] and [lg.Data[:32]]
    panic when out of range.  [periods], the rest of the data, is only
    logged. *)
Definition deposit_of_log (lg : Log) : M unit :=
  match Topics lg !! 1%nat with
  | None => panic "index out of range"
  | Some staker =>
      if decide (length (Data lg) < 32)%nat then panic "slice bounds out of range"
      else
        let value := Z.of_N (be_value (take 32 (Data lg))) in
        acc ← get_stakeInfoList;
        put_stakeInfoList (acc ++ [{| Coinbase := NewAccountID staker;
                                      WorkBase := staker;
                                      IsWork := true;
                                      LockedBalance := NewU128 value;
                                      WorkCount := 0 |}]);;
        log LvlInfo "find deposit event"
  end.

Fixpoint deposit_loop (logs : list Log) : M unit :=
  match logs with
  | [] => mret tt
  | lg :: rest => deposit_of_log lg;; deposit_loop rest
  end.

Definition getDepositEventsForBlock (P : Params) (env : Env) (latestBlock : Z)
  : M (option error) :=
  log LvlInfo "Querying block for deposit events";;
  let '(logs, err) := FilterLogs env latestBlock in
  match err with
  | Some e => mret (Some ("unable to Filter Logs: " +:+ e))
  | None =>
      deposit_loop logs;;
      if Uint64 latestBlock mod EpochLength P =? 0 then
        acc ← get_stakeInfoList;
        if (length acc =? 0)%nat then mret None
        else
          err ← Subconn_SubmitTx env (LockedBalanceTop20 acc);
          match err with
          | Some _ => log LvlError "failed to update stake info to nulink"
          | None => log LvlError "succeeded to update stake info to nulink"
          end;;
          put_stakeInfoList [];;
          mret None
      else mret None
  end.

(** ** The block poller *)

(** [x.Cmp(y)] *)
Definition big_Cmp (x y : Z) : Z :=
  match x ?= y with
  | Lt => -1
  | Eq => 0
  | Gt => 1
  end.

(** How one pass of the [for] loop ends. *)
Inductive Step :=
| Continue (currentBlock retry : Z)
| Return (err : option error).

(** One pass of the loop of [PollBlocks].  The send on [l.Stop] is taken
    to complete: its receiver is not among the sources.  [retry] is a Go
    [int]; [currentBlock] is the very [big.Int] of [l.Config.StartBlock],
    which nothing else reads while the loop runs. *)
Definition PollBlocks_iter (P : Params) (l : Listener) (env : Env)
    (currentBlock retry : Z) : M Step :=
  if StopRequested env then mret (Return (Some "polling terminated"))
  else if retry =? 0 then
    log LvlError "Polling failed, retries exceeded";;
    emit EvStopSend;;
    mret (Return None)
  else
    let '(latestBlock, err) := LatestBlock env in
    match err with
    | Some _ =>
        log LvlError "Unable to get latest block";;
        emit (EvSleep (BlockRetryInterval P));;
        mret (Continue currentBlock (int64_wrap (retry - 1)))
    | None =>
        if big_Cmp (latestBlock - currentBlock) (BlockConfirmations (Config l)) =? -1
        then
          log LvlDebug "Block not ready, will retry";;
          emit (EvSleep (BlockRetryInterval P));;
          mret (Continue currentBlock retry)
        else
          err ← syncStakeInfos P l env currentBlock;
          match err with
          | Some e =>
              emit EvStopSend;;
              mret (Return (Some e))
          | None => mret (Continue (currentBlock + 1) (BlockRetryLimit P))
          end
    end.

(** The loop, for at most [fuel] passes; pass [i] runs in [envs i].
    [None] when the fuel is spent before the loop returns. *)
Fixpoint PollBlocks_loop (fuel : nat) (P : Params) (l : Listener)
    (envs : nat → Env) (i : nat) (currentBlock retry : Z)
  : M (option (option error)) :=
  match fuel with
  | O => mret None
  | S fuel' =>
      s ← PollBlocks_iter P l (envs i) currentBlock retry;
      match s with
      | Return err => mret (Some err)
      | Continue currentBlock' retry' =>
          PollBlocks_loop fuel' P l envs (S i) currentBlock' retry'
      end
  end.

Definition PollBlocks (fuel : nat) (P : Params) (l : Listener)
    (envs : nat → Env) : M (option (option error)) :=
  log LvlInfo "Polling Blocks...";;
  PollBlocks_loop fuel P l envs 0 (StartBlock (Config l)) (BlockRetryLimit P).

(** ** The cursor reader *)

(** The value of a decimal digit. *)
Definition digit_of_ascii (c : Ascii.ascii) : option N :=
  let n := Ascii.N_of_ascii c in
  if ((48 <=? n) && (n <=? 57))%N then Some (n - 48)%N else None.

(** The number a string of decimal digits stands for, after [acc]. *)
Fixpoint scan_digits (acc : N) (s : string) : option N :=
  match s with
  | EmptyString => Some acc
  | String c r =>
      d ← digit_of_ascii c;
      scan_digits (acc * 10 + d)%N r
  end.

(** [new(big.Int).SetString(s, 10)]: an optional sign, then one decimal
    digit or more, and nothing else.  [None] is the nil pointer that
    comes with [false]. *)
Definition big_SetString10 (s : string) : option Z :=
  match s with
  | EmptyString => None
  | String c r =>
      if bool_decide (String c EmptyString = "-") then
        match r with
        | EmptyString => None
        | _ => n ← scan_digits 0 r; Some (- Z.of_N n)
        end
      else if bool_decide (String c EmptyString = "+") then
        match r with
        | EmptyString => None
        | _ => n ← scan_digits 0 r; Some (Z.of_N n)
        end
      else n ← scan_digits 0 s; Some (Z.of_N n)
  end.

(** The returned block is a pointer: [None] is nil.  The boolean of
    [SetString] is dropped by the code. *)
Definition ReadLatestBlock (file : string) : M (result (option Z)) :=
  '(exists_, err) ← fileExists file;
  match err with
  | Some e => mret (None, Some e)
  | None =>
      if (exists_ : bool) then
        '(data, err) ← ioutil_ReadFile file;
        match err with
        | Some e => mret (None, Some e)
        | None =>
            let block := big_SetString10 (String.string_of_list_byte data) in
            mret (block, None)
        end
      else mret (Some 0, None)
  end.

(** ** Default paths ([config]) *)

(** What the operating system and the standard library answer:
    [runtime.GOOS], the two environment variables, [user.Current] (the
    home directory of the user, with its error), the names
    [os.Open(dir)] followed by [Readdir(1)] gives ([None] when the
    directory cannot be opened), and [filepath.Join]. *)
Record OSEnv := mkOSEnv {
  GOOS : string;
  Getenv_HOME : string;
  user_Current : result string;
  Getenv_LOCALAPPDATA : string;
  Open_Readdir1 : string → option (list string);
  filepath_Join : list string → string
}.

Definition defaultStakeInfoFile : string := "/stake_info.json".
Definition defaultLatestBlockFile : string := "/latest_block".

Definition homeDir (os : OSEnv) : string :=
  if bool_decide (Getenv_HOME os ≠ EmptyString) then Getenv_HOME os
  else match user_Current os with
       | (usr, None) => usr
       | (_, Some _) => EmptyString
       end.

Definition windowsAppData (os : OSEnv) : Res string :=
  let v := Getenv_LOCALAPPDATA os in
  if bool_decide (v = EmptyString)
  then Panic "environment variable LocalAppData is undefined"
  else Val v.

Definition isNonEmptyDir (os : OSEnv) (dir : string) : bool :=
  match Open_Readdir1 os dir with
  | None => false
  | Some names => (0 <? length names)%nat
  end.

Definition DefaultDir (os : OSEnv) : Res string :=
  let home := homeDir os in
  if bool_decide (home ≠ EmptyString) then
    if bool_decide (GOOS os = "darwin") then
      Val (filepath_Join os [home; "Library"; "NuLinkWatcher"])
    else if bool_decide (GOOS os = "windows") then
      let fallback :=
        filepath_Join os [home; "AppData"; "Roaming"; "NuLinkWatcher"] in
      match windowsAppData os with
      | Panic msg => Panic msg
      | Val appdata =>
          if bool_decide (appdata = EmptyString) || isNonEmptyDir os fallback
          then Val fallback
          else Val (filepath_Join os [appdata; "NuLinkWatcher"])
      end
    else Val (filepath_Join os [home; "NuLinkWatcher"])
  else Val EmptyString.

Definition DefaultStakeInfoFile (os : OSEnv) : Res string :=
  match DefaultDir os with
  | Val dir => Val (dir +:+ defaultStakeInfoFile)
  | Panic msg => Panic msg
  end.

Definition DefaultLatestBlockFile (os : OSEnv) : Res string :=
  match DefaultDir os with
  | Val dir => Val (dir +:+ defaultLatestBlockFile)
  | Panic msg => Panic msg
  end.

(** ** Vocabulary of the statements *)

Definition is_log (e : Event) : Prop :=
  match e with EvLog _ _ => True | _ => False end.

Definition is_write (e : Event) : Prop :=
  match e with EvWriteFile _ _ | EvMkdirAll _ => True | _ => False end.

Definition is_file_write (e : Event) : Prop :=
  match e with EvWriteFile _ _ => True | _ => False end.

(** [w'] differs from [w] by log lines only. *)
Definition quiet (w w' : World) : Prop :=
  fs w' = fs w ∧ stakeInfoList w' = stakeInfoList w ∧
  ∃ tr, trace w' = trace w ++ tr ∧ Forall is_log tr.

(** Descending order of balance, and the records of one balance. *)
Definition desc (a b : StakeInfo) : Prop := LockedBalance b <= LockedBalance a.

Definition has_balance (b : Z) (r : StakeInfo) : Prop := LockedBalance r = b.

#[global] Instance has_balance_dec b r : Decision (has_balance b r).
Proof. unfold has_balance. apply _. Defined.

(** A deposit log as the contract emits it: the staker in the second
    topic, and at least the 32 bytes of the value in the data. *)
Definition wf_Log (lg : Log) : Prop :=
  (2 ≤ length (Topics lg))%nat ∧ (32 ≤ length (Data lg))%nat.

(** The record [getDepositEventsForBlock] appends for a log. *)
Definition deposit_record (lg : Log) : StakeInfo :=
  let staker := default [] (Topics lg !! 1%nat) in
  {| Coinbase := NewAccountID staker;
     WorkBase := staker;
     IsWork := true;
     LockedBalance := NewU128 (Z.of_N (be_value (take 32 (Data lg))));
     WorkCount := 0 |}.

(** [w] with [tr] added to its trace. *)
Definition traced (w : World) (tr : list Event) : World :=
  {| fs := fs w; stakeInfoList := stakeInfoList w; trace := trace w ++ tr |}.

(** The worlds and records of the examples. *)
Definition fs0 : FS := {| files := ∅; dirs := ∅; denied := ∅ |}.
Definition w0 : World := {| fs := fs0; stakeInfoList := []; trace := [] |}.

Definition addrA : bytes := replicate 20 x01.
Definition addrB : bytes := replicate 20 x02.
Definition addr0 : bytes := replicate 20 x00.

Definition recOf (a : bytes) (v : Z) : StakeInfo :=
  {| Coinbase := NewAccountID a; WorkBase := a; IsWork := true;
     LockedBalance := NewU128 v; WorkCount := 0 |}.

Definition P0 : Params :=
  {| BlockRetryLimit := 5; BlockRetryInterval := 1; EpochLength := 1000 |}.

Definition l0 : Listener :=
  {| Config := {| StartBlock := 1000; BlockConfirmations := 10;
                  DepositContractAddr := "0xbbD3C0C794F40c4f993B03F65343aCC6fcfCb2e2" |};
     LatestBlockPath := "data/latest_block";
     LastStakeInfoPath := "data/stake_info" |}.

Definition env_ok : Env :=
  {| StopRequested := false;
     LatestBlock := (2000, None);
     FilterLogs := λ _, ([], None);
     NewNucypher := None;
     GetStakersLength := (100, None);
     Stakers := λ i, (if i =? 0 then addrA else addrB, None);
     StakerInfo := λ i _, ({| Value := Some (500 + i) |}, None);
     SubmitTx := λ _, None |}.

Definition env_submit_fails : Env :=
  {| StopRequested := false;
     LatestBlock := (2000, None);
     FilterLogs := λ _, ([], None);
     NewNucypher := None;
     GetStakersLength := (100, None);
     Stakers := λ i, (if i =? 0 then addrA else addrB, None);
     StakerInfo := λ i _, ({| Value := Some (500 + i) |}, None);
     SubmitTx := λ _, Some "connection lost" |}.

(** The registry cannot be reached: the staker count is not fetched. *)
Definition env_no_registry : Env :=
  {| StopRequested := false;
     LatestBlock := (2000, None);
     FilterLogs := λ _, ([], None);
     NewNucypher := None;
     GetStakersLength := (0, Some "connection refused");
     Stakers := λ _, (addr0, None);
     StakerInfo := λ _ _, ({| Value := Some 0 |}, None);
     SubmitTx := λ _, None |}.

(** Fifty stakers, hence one pass of the enumeration; the address at
    index 0 cannot be fetched, and the binding hands back the zero
    address with the error. *)
Definition env_bad_index : Env :=
  {| StopRequested := false;
     LatestBlock := (2000, None);
     FilterLogs := λ _, ([], None);
     NewNucypher := None;
     GetStakersLength := (50, None);
     Stakers := λ _, (addr0, Some "execution reverted");
     StakerInfo := λ _ _, ({| Value := Some 0 |}, None);
     SubmitTx := λ _, None |}.

(** Fifty stakers; the info of the staker at index 0 cannot be fetched,
    and the binding hands back its zero struct, whose [Value] is nil. *)
Definition env_bad_info : Env :=
  {| StopRequested := false;
     LatestBlock := (2000, None);
     FilterLogs := λ _, ([], None);
     NewNucypher := None;
     GetStakersLength := (50, None);
     Stakers := λ _, (addrA, None);
     StakerInfo := λ _ _, ({| Value := None |}, Some "execution reverted");
     SubmitTx := λ _, None |}.


(** One record is waiting in the accumulator. *)
Definition w_pending : World :=
  {| fs := fs0; stakeInfoList := [recOf addrA 500]; trace := [] |}.

(** The chain stands at [L]; everything else answers. *)
Definition env_at (L : Z) : Env :=
  {| StopRequested := false;
     LatestBlock := (L, None);
     FilterLogs := λ _, ([], None);
     NewNucypher := None;
     GetStakersLength := (100, None);
     Stakers := λ i, (if i =? 0 then addrA else addrB, None);
     StakerInfo := λ i _, ({| Value := Some (500 + i) |}, None);
     SubmitTx := λ _, None |}.

(** The source chain cannot be reached. *)
Definition env_offline : Env :=
  {| StopRequested := false;
     LatestBlock := (0, Some "connection refused");
     FilterLogs := λ _, ([], Some "connection refused");
     NewNucypher := Some "connection refused";
     GetStakersLength := (0, Some "connection refused");
     Stakers := λ _, (addr0, Some "connection refused");
     StakerInfo := λ _ _, ({| Value := None |}, Some "connection refused");
     SubmitTx := λ _, None |}.

(** Twenty records, with balances 0 to 6: every balance comes up at
    least twice. *)
Definition snapshot20 : StakeInfos :=
  (λ i : nat, recOf (replicate 20 (byte_of_N (N.of_nat i))) (Z.of_nat (i `mod` 7)))
    <$> seq 0 20.

(** ** Vocabulary of the further statements *)

(** The fetch of the latest block fails in [env]. *)
Definition fetch_fails (env : Env) : bool :=
  match snd (LatestBlock env) with Some _ => true | None => false end.

(** A pass of the loop at height [h] that cannot process the block: no
    stop is requested, and the fetch fails or the block is not confirmed. *)
Definition no_progress (l : Listener) (h : Z) (env : Env) : Prop :=
  StopRequested env = false ∧
  (fetch_fails env = false →
   fst (LatestBlock env) - h < BlockConfirmations (Config l)).

(** What such a pass leaves in the trace. *)
Definition pass_events (P : Params) (env : Env) : list Event :=
  if fetch_fails env
  then [EvLog LvlError "Unable to get latest block";
        EvSleep (BlockRetryInterval P)]
  else [EvLog LvlDebug "Block not ready, will retry";
        EvSleep (BlockRetryInterval P)].

(** The passes [i], ..., [i + n - 1]. *)
Definition passes (envs : nat → Env) (i n : nat) : list Env :=
  envs <$> seq i n.

(** A record as the two builders make it. *)
Definition fresh_record (s : StakeInfo) : Prop :=
  Coinbase s = NewAccountID (WorkBase s) ∧ IsWork s = true ∧ WorkCount s = 0.

(** Whether every character is a decimal digit. *)
Fixpoint all_digits (s : string) : bool :=
  match s with
  | EmptyString => true
  | String c r =>
      match digit_of_ascii c with
      | Some _ => all_digits r
      | None => false
      end
  end.

(** A cursor file that ends in a newline. *)
Definition cursor_newline : bytes :=
  bytes_of_string "1000" ++ [Byte.x0a].

Definition w_newline : World :=
  {| fs := {| files := {[ "data/latest_block" := cursor_newline ]};
              dirs := {[ "data/" ]}; denied := ∅ |};
     stakeInfoList := []; trace := [] |}.

(** The record [GetStakeInfo] builds at index [i]: from whatever the two
    look-ups hand back, errors or not. *)
Definition registry_record (env : Env) (i : Z) : StakeInfo :=
  let staker := fst (Stakers env i) in
  {| Coinbase := NewAccountID staker;
     WorkBase := staker;
     IsWork := true;
     LockedBalance := NewU128 (default 0 (Value (fst (StakerInfo env i staker))));
     WorkCount := 0 |}.

(** A deposit of 500 by [addrA], as a log: the event signature and the
    staker in the topics, the value and the periods in the data. *)
Definition log_deposit : Log :=
  {| Topics := [replicate 32 x00; replicate 12 x00 ++ addrA];
     Data := replicate 30 x00 ++ [x01; Byte.xf4] ++ replicate 31 x00 ++ [x0a] |}.

(** A log whose data was cut short. *)
Definition log_short : Log :=
  {| Topics := [replicate 32 x00; replicate 12 x00 ++ addrA];
     Data := [x01; Byte.xf4] |}.

Definition env_short_log : Env :=
  {| StopRequested := false;
     LatestBlock := (2000, None);
     FilterLogs := λ _, ([log_deposit; log_short], None);
     NewNucypher := None;
     GetStakersLength := (100, None);
     Stakers := λ i, (if i =? 0 then addrA else addrB, None);
     StakerInfo := λ i _, ({| Value := Some (500 + i) |}, None);
     SubmitTx := λ _, None |}.

(** How many of the passes fail to fetch the latest block. *)
Definition failures (envs : list Env) : nat :=
  length (filter (λ env, fetch_fails env = true) envs).

(** A pass of the loop at height [h] that processes the block: no stop
    is requested, the fetch answers, and the block is confirmed. *)
Definition confirmed (l : Listener) (h : Z) (env : Env) : Prop :=
  StopRequested env = false ∧ snd (LatestBlock env) = None ∧
  BlockConfirmations (Config l) <= fst (LatestBlock env) - h.

(** Three passes: a failed fetch, a block not yet confirmed, a failed
    fetch; then the chain is far ahead. *)
Definition envs_flaky (i : nat) : Env :=
  match i with
  | 0%nat | 2%nat => env_offline
  | 1%nat => env_at 1005
  | _ => env_at 2000
  end.

(** There is nothing at the path, and the path can be looked up. *)
Definition absent (file : string) (f : FS) : Prop :=
  (file ∉ denied f) ∧ files f !! file = None ∧ (file ∉ dirs f).

(** A snapshot file was created, and nothing written to it. *)
Definition w_empty_file : World :=
  {| fs := {| files := {[ "data/stake_info" := [] ]};
              dirs := {[ "data/" ]}; denied := ∅ |};
     stakeInfoList := []; trace := [] |}.

(** Examples. *)
Definition os_linux : OSEnv :=
  {| GOOS := "linux"; Getenv_HOME := "/home/nulink";
     user_Current := ("/home/nulink", None);
     Getenv_LOCALAPPDATA := EmptyString;
     Open_Readdir1 := λ _, None;
     filepath_Join := λ l, foldr (λ a b, if bool_decide (b = EmptyString) then a
                                         else a +:+ "/" +:+ b) EmptyString l |}.

Definition os_windows_no_appdata : OSEnv :=
  {| GOOS := "windows"; Getenv_HOME := "C:/Users/nulink";
     user_Current := ("C:/Users/nulink", None);
     Getenv_LOCALAPPDATA := EmptyString;
     Open_Readdir1 := λ _, Some ["stake_info.json"];
     filepath_Join := filepath_Join os_linux |}.

Definition os_homeless : OSEnv :=
  {| GOOS := "windows"; Getenv_HOME := EmptyString;
     user_Current := (EmptyString, Some "user: Current not implemented");
     Getenv_LOCALAPPDATA := EmptyString;
     Open_Readdir1 := λ _, None;
     filepath_Join := filepath_Join os_linux |}.

(** * Lemmas *)

(** ** The monad *)

Ltac munfold :=
  unfold mbind, mret, M_bind, M_ret, log, emit, panic, get_fs, put_fs,
         get_stakeInfoList, put_stakeInfoList in *.

Ltac msimpl := munfold; cbn [fst snd fs stakeInfoList trace] in *.

Lemma bind_inv {A B} (m : M A) (f : A → M B) w r w' :
  (m ≫= f) w = (r, w') →
  (∃ a w1, m w = (Val a, w1) ∧ f a w1 = (r, w')) ∨
  (∃ msg, m w = (Panic msg, w') ∧ r = Panic msg).
Proof.
  unfold mbind, M_bind. destruct (m w) as [[a|msg] w1].
  - intros H. left. by exists a, w1.
  - intros [= <- <-]. right. by exists msg.
Qed.

Ltac solve_Forall :=
  cbn [app];
  repeat match goal with
         | |- Forall _ (_ :: _) =>
             constructor;
             [cbn; first [done | by left | by right | by intros []
                         | by eexists | tauto] |]
         end;
  try match goal with |- Forall _ [] => constructor end.

Lemma quiet_refl w : quiet w w.
Proof.
  repeat split. exists []. split; [by rewrite app_nil_r | constructor].
Qed.

Lemma quiet_trans w1 w2 w3 : quiet w1 w2 → quiet w2 w3 → quiet w1 w3.
Proof.
  intros (Hf1 & Ha1 & tr1 & Ht1 & Hl1) (Hf2 & Ha2 & tr2 & Ht2 & Hl2).
  split; [congruence |]. split; [congruence |].
  exists (tr1 ++ tr2). split.
  - rewrite Ht2, Ht1. by rewrite <- app_assoc.
  - by apply Forall_app.
Qed.

Lemma quiet_log lvl msg w r w' :
  log lvl msg w = (r, w') → r = Val tt ∧ quiet w w'.
Proof.
  msimpl. intros [= <- <-]. split; [done |].
  repeat split. cbn. eexists. split; [done |]. by repeat constructor.
Qed.

(** ** Stake snapshot builder *)

Lemma GetStakeInfo_body_quiet env i acc w r w' :
  GetStakeInfo_body env i acc w = (r, w') → quiet w w'.
Proof.
  unfold GetStakeInfo_body.
  destruct (Stakers env i) as [staker [e1|]];
    destruct (StakerInfo env i staker) as [[[v|]] [e2|]];
    msimpl; intros [= <- <-];
    first [ apply quiet_refl
          | repeat split; cbn; rewrite <- ?app_assoc;
            eexists; (split; [reflexivity | repeat constructor]) ].
Qed.

Lemma GetStakeInfo_loop_quiet env n : ∀ i acc w r w',
  GetStakeInfo_loop env n i acc w = (r, w') → quiet w w'.
Proof.
  induction n as [|n IH]; intros i acc w r w'; cbn.
  - msimpl. intros [= <- <-]. apply quiet_refl.
  - unfold mbind, M_bind.
    destruct (GetStakeInfo_body env i acc w) as [[acc'|msg] w1] eqn:Hb.
    + intros H. eapply quiet_trans; [eapply GetStakeInfo_body_quiet, Hb |].
      eapply IH, H.
    + intros [= <- <-]. eapply GetStakeInfo_body_quiet, Hb.
Qed.

Lemma GetStakeInfo_quiet env w r w' :
  GetStakeInfo env w = (r, w') → quiet w w'.
Proof.
  unfold GetStakeInfo.
  destruct (NewNucypher env) as [e|].
  { msimpl. intros [= <- <-]. repeat split. cbn.
    eexists. split; [done | by repeat constructor]. }
  destruct (GetStakersLength env) as [len [e|]].
  { msimpl. intros [= <- <-]. repeat split. cbn.
    eexists. split; [done | by repeat constructor]. }
  unfold mbind at 1, M_bind at 1.
  destruct (log LvlInfo _ w) as [r0 w1] eqn:Hl.
  apply quiet_log in Hl as [-> Hq].
  unfold mbind, M_bind.
  destruct (GetStakeInfo_loop _ _ _ _ w1) as [[acc|msg] w2] eqn:Hloop;
    msimpl; intros [= <- <-];
    (eapply quiet_trans; [exact Hq | eapply GetStakeInfo_loop_quiet, Hloop]).
Qed.

(** ** Persistence layer: what the file operations touch *)

Lemma os_Stat_pure name w r w' : os_Stat name w = (r, w') → w' = w ∧ ∃ st, r = Val st.
Proof.
  unfold os_Stat. msimpl. repeat case_decide; intros [= <- <-]; eauto.
Qed.

Lemma fileExists_pure name w r w' :
  fileExists name w = (r, w') → w' = w ∧ ∃ v, r = Val v.
Proof.
  unfold fileExists. intros H.
  apply bind_inv in H as [(st & w1 & H1 & H2) | (msg & H1 & ->)];
    apply os_Stat_pure in H1 as [-> [st' Hst]]; [|done].
  destruct st; msimpl; injection H2 as <- <-; eauto.
Qed.

Lemma ioutil_ReadFile_pure name w r w' :
  ioutil_ReadFile name w = (r, w') → w' = w ∧ ∃ v, r = Val v.
Proof.
  unfold ioutil_ReadFile. msimpl. case_decide; [intros [= <- <-]; eauto|].
  destruct (files (fs w) !! name); intros [= <- <-]; eauto.
Qed.

Lemma ReadStakeInfos_quiet file w r w' :
  ReadStakeInfos file w = (r, w') → quiet w w' ∧ ∃ v, r = Val v.
Proof.
  unfold ReadStakeInfos. intros H.
  apply bind_inv in H as [([ex err] & w1 & H1 & H2) | (msg & H1 & ->)];
    apply fileExists_pure in H1 as [-> [v Hv]]; [|done].
  destruct err as [e|].
  { msimpl. injection H2 as <- <-. split; [apply quiet_refl | eauto]. }
  destruct ex; cbn [negb] in H2.
  2:{ apply bind_inv in H2 as [(u & w1 & H1 & H2) | (msg & H1 & ->)];
        apply quiet_log in H1 as [Hu Hq]; [|done].
      msimpl. injection H2 as <- <-. eauto. }
  apply bind_inv in H2 as [([data err] & w1 & H1 & H2) | (msg & H1 & ->)];
    apply ioutil_ReadFile_pure in H1 as [-> [v' Hv']]; [|done].
  destruct err as [e|].
  { apply bind_inv in H2 as [(u & w1 & H1 & H2) | (msg & H1 & ->)];
      apply quiet_log in H1 as [Hu Hq]; [|done].
    msimpl. injection H2 as <- <-. eauto. }
  destruct (length data =? 0)%nat.
  { apply bind_inv in H2 as [(u & w1 & H1 & H2) | (msg & H1 & ->)];
      apply quiet_log in H1 as [Hu Hq]; [|done].
    msimpl. injection H2 as <- <-. eauto. }
  destruct (rlp_DecodeBytes data) as [infos [e|]].
  { apply bind_inv in H2 as [(u & w1 & H1 & H2) | (msg & H1 & ->)];
      apply quiet_log in H1 as [Hu Hq]; [|done].
    msimpl. injection H2 as <- <-. eauto. }
  msimpl. injection H2 as <- <-. split; [apply quiet_refl | eauto].
Qed.

Lemma os_MkdirAll_spec dir w r w' :
  os_MkdirAll dir w = (r, w') →
  (r = Val None ∧
   w' = {| fs := {| files := files (fs w); dirs := {[dir]} ∪ dirs (fs w);
                    denied := denied (fs w) |};
           stakeInfoList := stakeInfoList w;
           trace := trace w ++ [EvMkdirAll dir] |}) ∨
  (∃ e, r = Val (Some e) ∧ w' = w).
Proof.
  unfold os_MkdirAll. msimpl. case_decide; intros [= <- <-]; eauto.
Qed.

Lemma ioutil_WriteFile_spec name data w r w' :
  ioutil_WriteFile name data w = (r, w') →
  (r = Val None ∧ (name ∉ denied (fs w)) ∧
   w' = {| fs := {| files := <[name := data]> (files (fs w));
                    dirs := dirs (fs w); denied := denied (fs w) |};
           stakeInfoList := stakeInfoList w;
           trace := trace w ++ [EvWriteFile name data] |}) ∨
  (∃ e, r = Val (Some e) ∧ w' = w).
Proof.
  unfold ioutil_WriteFile. msimpl. case_decide as Hd; intros [= <- <-]; [eauto|].
  left. repeat split. tauto.
Qed.

(** [ensure_dir] leaves the files alone; all it may add to the trace is
    one [EvMkdirAll]. *)
Lemma ensure_dir_spec file w r w' :
  ensure_dir file w = (r, w') →
  ∃ err mk, r = Val err ∧ trace w' = trace w ++ mk ∧
    Forall (λ e, ∃ d, e = EvMkdirAll d) mk ∧
    files (fs w') = files (fs w) ∧ denied (fs w') = denied (fs w) ∧
    stakeInfoList w' = stakeInfoList w.
Proof.
  unfold ensure_dir. intros H.
  apply bind_inv in H as [(st & w1 & H1 & H2) | (msg & H1 & ->)];
    apply os_Stat_pure in H1 as [-> [st' Hst]]; [|done].
  destruct st.
  - msimpl. injection H2 as <- <-. exists None, []. by rewrite app_nil_r.
  - apply os_MkdirAll_spec in H2 as [[-> ->] | (e & -> & ->)].
    + exists None, [EvMkdirAll (filepath_Split_dir file)].
      repeat split; eauto.
    + exists (Some e), []. by rewrite app_nil_r.
  - msimpl. injection H2 as <- <-. exists None, []. by rewrite app_nil_r.
Qed.

Lemma WriteStakeInfos_success file infos w w' :
  WriteStakeInfos file infos w = (Val None, w') →
  ∃ data mk, rlp_EncodeToBytes infos = (data, None) ∧
    trace w' = trace w ++ mk ++
      [EvWriteFile file data;
       EvLog LvlInfo "write stake info list to file succeeded"] ∧
    Forall (λ e, ∃ d, e = EvMkdirAll d) mk ∧
    files (fs w') = <[file := data]> (files (fs w)) ∧
    denied (fs w') = denied (fs w) ∧ (file ∉ denied (fs w)) ∧
    stakeInfoList w' = stakeInfoList w.
Proof.
  unfold WriteStakeInfos. intros H.
  apply bind_inv in H as [(err & w1 & H1 & H2) | (msg & H1 & ?)]; [|done].
  apply ensure_dir_spec in H1 as (err' & mk & Herr & Ht & Hmk & Hf & Hd & Ha).
  injection Herr as <-.
  destruct err as [e|]; [by msimpl|].
  destruct (rlp_EncodeToBytes infos) as [data [e|]]; [by msimpl|].
  apply bind_inv in H2 as [(err & w2 & H2 & H3) | (msg & H2 & ?)]; [|done].
  apply ioutil_WriteFile_spec in H2 as [([= ->] & Hnd & ->) | (e & [= ->] & ->)];
    [|by msimpl].
  msimpl. injection H3 as <-. cbn.
  exists data, mk. rewrite Hf, Hd, Ha, Ht, <- !app_assoc.
  repeat split; eauto. by rewrite <- Hd.
Qed.

Lemma WriteLatestBlock_success file number w w' :
  WriteLatestBlock file number w = (Val None, w') →
  ∃ mk,
    trace w' = trace w ++ mk ++
      [EvWriteFile file (bytes_of_string (pretty number))] ∧
    Forall (λ e, ∃ d, e = EvMkdirAll d) mk ∧
    files (fs w') = <[file := bytes_of_string (pretty number)]> (files (fs w)) ∧
    denied (fs w') = denied (fs w) ∧ stakeInfoList w' = stakeInfoList w.
Proof.
  unfold WriteLatestBlock. intros H.
  apply bind_inv in H as [(err & w1 & H1 & H2) | (msg & H1 & ?)]; [|done].
  apply ensure_dir_spec in H1 as (err' & mk & Herr & Ht & Hmk & Hf & Hd & Ha).
  injection Herr as <-.
  destruct err as [e|]; [by msimpl|].
  apply bind_inv in H2 as [(err & w2 & H2 & H3) | (msg & H2 & ?)]; [|done].
  apply ioutil_WriteFile_spec in H2 as [([= ->] & Hnd & ->) | (e & [= ->] & ->)];
    [|by msimpl].
  msimpl. injection H3 as <-. cbn.
  exists mk. rewrite Hf, Hd, Ha, Ht, <- !app_assoc. repeat split; eauto.
Qed.

(** Whatever they return, the two writers only log and write. *)
Lemma WriteStakeInfos_footprint file infos w r w' :
  WriteStakeInfos file infos w = (r, w') →
  ∃ tr, trace w' = trace w ++ tr ∧ Forall (λ e, is_log e ∨ is_write e) tr.
Proof.
  unfold WriteStakeInfos. intros H.
  apply bind_inv in H as [(err & w1 & H1 & H2) | (msg & H1 & ?)];
    apply ensure_dir_spec in H1 as (err' & mk & Herr & Ht & Hmk & _); [|done].
  assert (Forall (λ e, is_log e ∨ is_write e) mk) as Hmk'.
  { eapply Forall_impl; [exact Hmk|]. intros ? [d ->]. by right. }
  destruct err as [e|].
  { msimpl. injection H2 as <- <-. eauto. }
  destruct (rlp_EncodeToBytes infos) as [data [e|]].
  { msimpl. injection H2 as <- <-. cbn. rewrite Ht, <- app_assoc.
    eexists. split; [done|]. apply Forall_app. split; [done|].
    solve_Forall. }
  apply bind_inv in H2 as [(err & w2 & H2 & H3) | (msg & H2 & ?)].
  2:{ apply ioutil_WriteFile_spec in H2 as [(? & _) | (? & ? & _)]; done. }
  apply ioutil_WriteFile_spec in H2 as [([= ->] & Hnd & ->) | (e & [= ->] & ->)];
    msimpl; injection H3 as <- <-; cbn; rewrite Ht, <- ?app_assoc;
    (eexists; split; [done|]); (apply Forall_app; split; [done|]);
    solve_Forall.
Qed.

Lemma WriteLatestBlock_footprint file number w r w' :
  WriteLatestBlock file number w = (r, w') →
  ∃ tr, trace w' = trace w ++ tr ∧ Forall (λ e, is_log e ∨ is_write e) tr.
Proof.
  unfold WriteLatestBlock. intros H.
  apply bind_inv in H as [(err & w1 & H1 & H2) | (msg & H1 & ?)];
    apply ensure_dir_spec in H1 as (err' & mk & Herr & Ht & Hmk & _); [|done].
  assert (Forall (λ e, is_log e ∨ is_write e) mk) as Hmk'.
  { eapply Forall_impl; [exact Hmk|]. intros ? [d ->]. by right. }
  destruct err as [e|].
  { msimpl. injection H2 as <- <-. eauto. }
  apply bind_inv in H2 as [(err & w2 & H2 & H3) | (msg & H2 & ?)].
  2:{ apply ioutil_WriteFile_spec in H2 as [(? & _) | (? & ? & _)]; done. }
  apply ioutil_WriteFile_spec in H2 as [([= ->] & Hnd & ->) | (e & [= ->] & ->)];
    msimpl; injection H3 as <- <-; cbn; rewrite ?Ht, <- ?app_assoc.
  - eexists. split; [done|]. apply Forall_app. split; [done|].
    solve_Forall.
  - eauto.
Qed.

(** ** Epoch synchronizer *)

(** The diff loop, as the code has it, reports every record of the last
    snapshot. *)
Lemma stopped_loop_all lastInfos top20 acc :
  stopped_loop lastInfos top20 acc = acc ++ map (set_IsWork false) lastInfos.
Proof.
  revert acc. induction lastInfos as [|li rest IH]; intros acc; cbn.
  - by rewrite app_nil_r.
  - rewrite IH. by rewrite <- app_assoc.
Qed.

Lemma Subconn_SubmitTx_spec env payload w :
  Subconn_SubmitTx env payload w =
  (Val (SubmitTx env payload),
   {| fs := fs w; stakeInfoList := stakeInfoList w;
      trace := trace w ++ [EvSubmitTx payload (SubmitTx env payload)] |}).
Proof. reflexivity. Qed.

Lemma quiet_no_event w w' tr ev :
  quiet w w' → trace w' = trace w ++ tr → ev ∈ tr → is_log ev.
Proof.
  intros (_ & _ & tr' & Ht & Hl) Ht' Hin.
  rewrite Ht in Ht'. apply app_inv_head in Ht'. subst tr'.
  rewrite Forall_forall in Hl. by apply Hl.
Qed.

(** The commit of [syncStakeInfos], the part after the submission,
    only logs and writes, whatever it returns. *)
Lemma commit_footprint (l : Listener) top20 h w r w' :
  (err ← WriteStakeInfos (LastStakeInfoPath l) top20;
   match err with
   | Some e => mret (Some e)
   | None =>
       err ← WriteLatestBlock (LatestBlockPath l) h;
       match err with
       | Some e =>
           log LvlError "Failed to write latest block";;
           mret (Some e)
       | None => mret None
       end
   end) w = (r, w') →
  ∃ tr, trace w' = trace w ++ tr ∧ Forall (λ e, is_log e ∨ is_write e) tr.
Proof.
  intros H5.
  apply bind_inv in H5 as [(err & w5 & H5 & H6) | (msg & H5 & ->)];
    apply WriteStakeInfos_footprint in H5 as (ta & Hta & Hla).
  2:{ by exists ta. }
  destruct err as [e5|].
  { injection H6 as <- <-. by exists ta. }
  apply bind_inv in H6 as [(err & w6 & H6 & H7) | (msg & H6 & ->)];
    apply WriteLatestBlock_footprint in H6 as (tb & Htb & Hlb).
  2:{ exists (ta ++ tb). rewrite Htb, Hta, <- ?app_assoc.
      split; [done|]. by apply Forall_app. }
  destruct err as [e6|]; msimpl; injection H7 as <- <-; cbn;
    rewrite ?Htb, Hta, <- ?app_assoc.
  - exists (ta ++ tb ++ [EvLog LvlError "Failed to write latest block"]).
    rewrite <- ?app_assoc. split; [done|].
    rewrite !Forall_app. repeat split; [done..|solve_Forall].
  - exists (ta ++ tb). rewrite <- ?app_assoc. split; [done|].
    by apply Forall_app.
Qed.

(** C3: in a run of [syncStakeInfos] in which [SubmitTx] answers with an
    error, that error is what [syncStakeInfos] returns, and the run ends
    with the submission and the log of its failure: [WriteStakeInfos] and
    [WriteLatestBlock] are not reached.  The file system is as it was
    (neither the snapshot file nor the cursor file is written, no
    directory is made), and nothing in the trace is a write. *)
Theorem syncStakeInfos_submit_failure (P : Params) (l : Listener) (env : Env)
    (h : Z) (w w' : World) (r : Res (option error)) (tr : list Event)
    (payload : StakeInfos) (e : error) :
  syncStakeInfos P l env h w = (r, w') →
  trace w' = trace w ++ tr →
  EvSubmitTx payload (Some e) ∈ tr →
  r = Val (Some e) ∧ fs w' = fs w ∧ stakeInfoList w' = stakeInfoList w ∧
  Forall (λ ev, ¬ is_write ev) tr ∧
  ∃ logs, Forall is_log logs ∧
    tr = logs ++ [EvSubmitTx payload (Some e);
                  EvLog LvlError "failed to update stake info to nulink"].
Proof.
  unfold syncStakeInfos. intros H Ht Hin.
  destruct (negb _).
  { msimpl. injection H as <- <-.
    rewrite <- (app_nil_r (trace w)) in Ht at 1. apply app_inv_head in Ht.
    subst tr. by apply elem_of_nil in Hin. }
  apply bind_inv in H as [([stakeInfos err] & w1 & H1 & H2) | (msg & H1 & ->)];
    apply GetStakeInfo_quiet in H1 as Hq1.
  2:{ by pose proof (quiet_no_event _ _ _ _ Hq1 Ht Hin). }
  destruct err as [e1|].
  { msimpl. injection H2 as <- <-.
    by pose proof (quiet_no_event _ _ _ _ Hq1 Ht Hin). }
  apply bind_inv in H2 as [([lastInfos err] & w2 & H2 & H3) | (msg & H2 & ->)];
    apply ReadStakeInfos_quiet in H2 as [Hq2 _];
    pose proof (quiet_trans _ _ _ Hq1 Hq2) as Hq.
  2:{ by pose proof (quiet_no_event _ _ _ _ Hq Ht Hin). }
  destruct err as [e2|].
  { msimpl. injection H3 as <- <-.
    by pose proof (quiet_no_event _ _ _ _ Hq Ht Hin). }
  destruct Hq as (Hfs & Hacc & trq & Htq & Hlq).
  apply bind_inv in H3 as [(err & w3 & H3 & H4) | (msg & H3 & ->)];
    rewrite Subconn_SubmitTx_spec in H3; [|done].
  injection H3 as <- <-.
  set (infos := LockedBalanceTop20 stakeInfos ++ _) in *.
  destruct (SubmitTx env infos) as [e3|] eqn:Hsub.
  - msimpl. injection H4 as <- <-. cbn in Ht.
    rewrite Htq, <- !app_assoc in Ht. apply app_inv_head in Ht. subst tr.
    rewrite !elem_of_app, !list_elem_of_singleton in Hin.
    destruct Hin as [Hin | [Hin | Hin]]; [| |done].
    { rewrite Forall_forall in Hlq. by apply Hlq in Hin. }
    injection Hin as -> ->. repeat split; [done..| |].
    + apply Forall_app. split; [|solve_Forall].
      eapply Forall_impl; [exact Hlq|]. intros []; cbn; tauto.
    + by exists trq.
  - exfalso.
    apply bind_inv in H4 as [(u & w4 & H4 & H5) | (msg & H4 & ->)].
    2:{ by apply quiet_log in H4 as [? _]. }
    msimpl. injection H4 as <- <-.
    assert (∃ tr2, trace w' = trace w ++ trq ++
              [EvSubmitTx infos None;
               EvLog LvlInfo "succeeded to update stake info to nulink"] ++ tr2
            ∧ Forall (λ e, is_log e ∨ is_write e) tr2) as (tr2 & Ht2 & Hl2).
    { apply commit_footprint in H5 as (tr2 & Ht2 & Hl2). cbn in Ht2.
      exists tr2. by rewrite Ht2, Htq, <- ?app_assoc. }
    rewrite Ht2 in Ht. apply app_inv_head in Ht. subst tr.
    rewrite !elem_of_app in Hin.
    destruct Hin as [Hin | [Hin | Hin]].
    + rewrite Forall_forall in Hlq. by apply Hlq in Hin.
    + rewrite elem_of_cons, list_elem_of_singleton in Hin.
      by destruct Hin.
    + rewrite Forall_forall in Hl2. apply Hl2 in Hin. by destruct Hin.
Qed.

(** C4: in a successful commit at an epoch boundary the ranked snapshot is
    written first and the cursor second.  Up to the submission no file is
    touched; [w2], the world between the two writes, has the new snapshot
    and still the old cursor; in the trace the write of the snapshot comes
    before the write of the cursor, and there is no other write of a file.
    So the old snapshot is never on disk together with the new cursor. *)
Theorem syncStakeInfos_commit_order (P : Params) (l : Listener) (env : Env)
    (h : Z) (w w' : World) :
  Uint64 h mod EpochLength P = 0 →
  LastStakeInfoPath l ≠ LatestBlockPath l →
  syncStakeInfos P l env h w = (Val None, w') →
  ∃ stakeInfos wa data w1 w2 tr1 tr2 tr3,
    let top20 := LockedBalanceTop20 stakeInfos in
    let cursor := bytes_of_string (pretty h) in
    GetStakeInfo env w = (Val (stakeInfos, None), wa) ∧
    rlp_EncodeToBytes top20 = (data, None) ∧
    fs w1 = fs w ∧
    WriteStakeInfos (LastStakeInfoPath l) top20 w1 = (Val None, w2) ∧
    WriteLatestBlock (LatestBlockPath l) h w2 = (Val None, w') ∧
    files (fs w2) !! LastStakeInfoPath l = Some data ∧
    files (fs w2) !! LatestBlockPath l = files (fs w) !! LatestBlockPath l ∧
    files (fs w') !! LastStakeInfoPath l = Some data ∧
    files (fs w') !! LatestBlockPath l = Some cursor ∧
    trace w' = trace w ++ tr1 ++ [EvWriteFile (LastStakeInfoPath l) data] ++
               tr2 ++ [EvWriteFile (LatestBlockPath l) cursor] ++ tr3 ∧
    Forall (λ e, ¬ is_file_write e) (tr1 ++ tr2 ++ tr3).
Proof.
  intros Hep Hne H. unfold syncStakeInfos in H. rewrite Hep in H.
  cbn [Z.eqb negb] in H.
  apply bind_inv in H as [([stakeInfos err] & wa & H1 & H2) | (msg & H1 & ?)];
    [|done].
  pose proof (GetStakeInfo_quiet _ _ _ _ H1) as Hq1.
  destruct err as [e1|]; [by msimpl|].
  apply bind_inv in H2 as [([lastInfos err] & wb & H2 & H3) | (msg & H2 & ?)];
    [|done].
  apply ReadStakeInfos_quiet in H2 as [Hq2 _].
  pose proof (quiet_trans _ _ _ Hq1 Hq2) as (Hfs & Hacc & trq & Htq & Hlq).
  destruct err as [e2|]; [by msimpl|].
  apply bind_inv in H3 as [(err & wc & H3 & H4) | (msg & H3 & ?)]; [|done].
  rewrite Subconn_SubmitTx_spec in H3. injection H3 as <- <-.
  set (infos := LockedBalanceTop20 stakeInfos ++ _) in *.
  destruct (SubmitTx env infos) as [e3|] eqn:Hsub; [by msimpl|].
  apply bind_inv in H4 as [(u & w1 & H4 & H5) | (msg & H4 & ?)]; [|done].
  msimpl. injection H4 as <- <-.
  apply bind_inv in H5 as [(err & w2 & H5 & H6) | (msg & H5 & ?)]; [|done].
  destruct err as [e5|]; [by msimpl|].
  apply bind_inv in H6 as [(err & w3 & H6 & H7) | (msg & H6 & ?)]; [|done].
  destruct err as [e6|]; [by msimpl|].
  injection H7 as <-.
  pose proof (WriteStakeInfos_success _ _ _ _ H5)
    as (data & mk1 & Henc & Ht1 & Hmk1 & Hf1 & Hd1 & Hnd1 & Ha1).
  pose proof (WriteLatestBlock_success _ _ _ _ H6)
    as (mk2 & Ht2 & Hmk2 & Hf2 & Hd2 & Ha2).
  cbn in Ht1, Hf1.
  match type of H5 with WriteStakeInfos _ _ ?x = _ => set (w1 := x) in * end.
  exists stakeInfos, wa, data, w1, w2,
    (trq ++ [EvSubmitTx infos None;
             EvLog LvlInfo "succeeded to update stake info to nulink"] ++ mk1),
    ([EvLog LvlInfo "write stake info list to file succeeded"] ++ mk2), [].
  cbn zeta. split; [exact H1|]. split; [exact Henc|].
  split; [exact Hfs|]. split; [exact H5|]. split; [exact H6|].
  rewrite Hf2, Hf1, Hfs.
  split; [by rewrite lookup_insert_eq|].
  split; [by rewrite lookup_insert_ne|].
  split; [by rewrite lookup_insert_ne, lookup_insert_eq|].
  split; [by rewrite lookup_insert_eq|].
  split.
  - rewrite Ht2, Ht1. unfold w1. cbn [trace]. rewrite Htq.
    rewrite <- ?app_assoc. cbn [app]. by rewrite <- ?app_assoc.
  - rewrite app_nil_r, !Forall_app. repeat split.
    + eapply Forall_impl; [exact Hlq|]. intros []; cbn; tauto.
    + solve_Forall.
    + eapply Forall_impl; [exact Hmk1|]. intros ? [d ->]; cbn; tauto.
    + solve_Forall.
    + eapply Forall_impl; [exact Hmk2|]. intros ? [d ->]; cbn; tauto.
Qed.

Lemma syncStakeInfos_submit_failure_witness :
  fst (syncStakeInfos P0 l0 env_submit_fails 1000 w0) = Val (Some "connection lost") ∧
  fs (snd (syncStakeInfos P0 l0 env_submit_fails 1000 w0)) = fs w0.
Proof.
  destruct (syncStakeInfos P0 l0 env_submit_fails 1000 w0) as [r w'] eqn:Hrun.
  destruct (syncStakeInfos_submit_failure P0 l0 env_submit_fails 1000 w0 w' r
              (trace w') [recOf addrB 501; recOf addrA 500] "connection lost"
              Hrun eq_refl) as (Hr & Hfs & _).
  - vm_compute in Hrun. injection Hrun as <- <-. cbn [trace].
    do 4 apply list_elem_of_further. apply list_elem_of_here.
  - done.
Defined.

Lemma syncStakeInfos_commit_order_witness :
  ∃ data,
    files (fs (snd (syncStakeInfos P0 l0 env_ok 1000 w0))) !! "data/stake_info"
      = Some data ∧
    files (fs (snd (syncStakeInfos P0 l0 env_ok 1000 w0))) !! "data/latest_block"
      = Some (bytes_of_string "1000").
Proof.
  assert (fst (syncStakeInfos P0 l0 env_ok 1000 w0) = Val None) as Hr
    by (vm_compute; reflexivity).
  destruct (syncStakeInfos P0 l0 env_ok 1000 w0) as [r w'] eqn:Hrun.
  cbn in Hr. subst r.
  destruct (syncStakeInfos_commit_order P0 l0 env_ok 1000 w0 w')
    as (si & wa & data & w1 & w2 & tr1 & tr2 & tr3 & H); [done | done | done |].
  cbn zeta in H. destruct H as (_ & _ & _ & _ & _ & _ & _ & Hs & Hc & _).
  exists data. split; [exact Hs | exact Hc].
Defined.

(** C1 (the code at a failing input): with one staker in the last
    snapshot and the same staker in the current top, the diff loop of
    [syncStakeInfos] still reports that staker as stopped. *)
Theorem stopped_loop_reports_present_staker :
  bytes_Equal (WorkBase (recOf addrA 500)) (WorkBase (recOf addrA 700)) = true ∧
  stopped_loop [recOf addrA 500] [recOf addrA 700] [] =
    [set_IsWork false (recOf addrA 500)].
Proof. split; reflexivity. Qed.

(** ** Stake snapshot builder: failures *)

(** C10: when the contract binding cannot be built, or the staker count
    cannot be fetched, [GetStakeInfo] returns the empty snapshot with a nil
    error, and only logs.  At an epoch boundary [syncStakeInfos] then does
    not fail the block: once the last snapshot is read it reaches the
    submission, with an empty [currentTop] followed by the stopped
    entries. *)
Theorem GetStakeInfo_registry_failure_silent (env : Env) (w : World) :
  NewNucypher env ≠ None ∨ snd (GetStakersLength env) ≠ None →
  ∃ w1, GetStakeInfo env w = (Val ([], None), w1) ∧ quiet w w1 ∧
    ∀ P l h lastInfos w2,
      Uint64 h mod EpochLength P = 0 →
      ReadStakeInfos (LastStakeInfoPath l) w1 = (Val (lastInfos, None), w2) →
      let payload := [] ++ map (set_IsWork false) lastInfos in
      ∃ r w' tr, syncStakeInfos P l env h w = (r, w') ∧
        trace w' = trace w2 ++ EvSubmitTx payload (SubmitTx env payload) :: tr.
Proof.
  intros Hfail.
  assert (∃ w1, GetStakeInfo env w = (Val ([], None), w1)) as [w1 Hw1].
  { unfold GetStakeInfo. destruct (NewNucypher env) as [e|]; [by eexists|].
    destruct (GetStakersLength env) as [len [e|]]; [by eexists|].
    destruct Hfail as [H|H]; by destruct H. }
  exists w1. split; [done|]. split; [eapply GetStakeInfo_quiet, Hw1|].
  intros P l h lastInfos w2 Hep Hread payload.
  destruct (syncStakeInfos P l env h w) as [r w'] eqn:H. exists r, w'.
  unfold syncStakeInfos in H. rewrite Hep in H. cbn [Z.eqb negb] in H.
  apply bind_inv in H as [(x & wa & H1 & H2) | (msg & H1 & _)];
    rewrite Hw1 in H1; [|done].
  injection H1 as <- <-.
  apply bind_inv in H2 as [(x & wb & H2 & H3) | (msg & H2 & _)];
    rewrite Hread in H2; [|done].
  injection H2 as <- <-.
  change (LockedBalanceTop20 []) with (@nil StakeInfo) in H3.
  rewrite stopped_loop_all in H3. fold payload in H3.
  apply bind_inv in H3 as [(err & wc & H3 & H4) | (msg & H3 & _)];
    rewrite Subconn_SubmitTx_spec in H3; [|done].
  injection H3 as <- <-.
  destruct (SubmitTx env payload) as [e|].
  - msimpl. injection H4 as <- <-. eexists. split; [done|].
    cbn. by rewrite <- app_assoc.
  - apply bind_inv in H4 as [(u & wd & H4 & H5) | (msg & H4 & _)]; [|done].
    msimpl. injection H4 as <- <-.
    apply commit_footprint in H5 as (tr & Ht & _). cbn in Ht.
    exists (EvLog LvlInfo "succeeded to update stake info to nulink" :: tr).
    split; [done|]. rewrite Ht. by rewrite <- !app_assoc.
Qed.

Lemma GetStakeInfo_registry_failure_silent_witness :
  ∃ w1, GetStakeInfo env_no_registry w0 = (Val ([], None), w1).
Proof.
  destruct (GetStakeInfo_registry_failure_silent env_no_registry w0)
    as (w1 & H & _).
  - right. cbn. discriminate.
  - exists w1. exact H.
Defined.

(** A pass of the enumeration appends a record whatever the two
    look-ups answered, as long as there is a [Value] to read. *)
Lemma GetStakeInfo_body_appends env i acc w v :
  Value (fst (StakerInfo env i (fst (Stakers env i)))) = Some v →
  fst (GetStakeInfo_body env i acc w) =
    Val (acc ++ [{| Coinbase := NewAccountID (fst (Stakers env i));
                    WorkBase := fst (Stakers env i);
                    IsWork := true;
                    LockedBalance := NewU128 v;
                    WorkCount := 0 |}]).
Proof.
  unfold GetStakeInfo_body.
  destruct (Stakers env i) as [staker [e1|]]; cbn [fst];
    destruct (StakerInfo env i staker) as [[val] [e2|]]; cbn [fst Value];
    intros ->; reflexivity.
Qed.

(** C9 (the code at a failing input): the registry has 50 stakers, so the
    loop runs once, and the look-up of the address at index 0 fails.  The
    failure is logged, but the item is not skipped: the snapshot has a
    record, built from the zero address the failed call handed back. *)
Theorem GetStakeInfo_keeps_failed_item :
  snd (Stakers env_bad_index 0) = Some "execution reverted" ∧
  fst (GetStakeInfo env_bad_index w0) = Val ([recOf addr0 0], None).
Proof. split; reflexivity. Qed.

(** When it is the look-up of the staker's info that fails, and the
    binding hands back its zero struct, the dereference of the nil [Value]
    panics: the whole build is lost. *)
Lemma GetStakeInfo_panics_on_nil_Value :
  snd (StakerInfo env_bad_info 0 addrA) = Some "execution reverted" ∧
  fst (GetStakeInfo env_bad_info w0) =
    Panic "invalid memory address or nil pointer dereference".
Proof. split; reflexivity. Qed.

(** ** Staker ranking *)

Lemma insert_desc_cons x y r :
  insert_desc x (y :: r) =
  if LockedBalance x <? LockedBalance y then y :: insert_desc x r
  else x :: y :: r.
Proof. reflexivity. Qed.

Lemma sort_desc_cons x l : sort_desc (x :: l) = insert_desc x (sort_desc l).
Proof. reflexivity. Qed.

Lemma insert_desc_length x l : length (insert_desc x l) = S (length l).
Proof.
  induction l as [|y r IH]; cbn; [done|].
  destruct (LockedBalance x <? LockedBalance y); cbn; by rewrite ?IH.
Qed.

Lemma sort_desc_length l : length (sort_desc l) = length l.
Proof.
  induction l as [|x l IH]; [done|].
  by rewrite sort_desc_cons, insert_desc_length, IH.
Qed.

Lemma insert_desc_Permutation x l : insert_desc x l ≡ₚ x :: l.
Proof.
  induction l as [|y r IH]; cbn; [done|].
  destruct (LockedBalance x <? LockedBalance y); [|done].
  rewrite IH. apply Permutation_swap.
Qed.

Lemma sort_desc_Permutation l : sort_desc l ≡ₚ l.
Proof.
  induction l as [|x l IH]; [done|].
  by rewrite sort_desc_cons, insert_desc_Permutation, IH.
Qed.

Lemma insert_desc_sorted x l :
  StronglySorted desc l → StronglySorted desc (insert_desc x l).
Proof.
  induction 1 as [|y r Hs IH Hall]; cbn.
  - by repeat constructor.
  - destruct (Z.ltb_spec (LockedBalance x) (LockedBalance y)) as [Hlt|Hge].
    + constructor; [done|].
      rewrite insert_desc_Permutation. constructor; [unfold desc; lia | done].
    + constructor; [by constructor|].
      constructor; [done|].
      eapply Forall_impl; [exact Hall|]. unfold desc. intros z Hz. lia.
Qed.

Lemma sort_desc_sorted l : StronglySorted desc (sort_desc l).
Proof.
  induction l as [|x l IH]; [constructor|].
  rewrite sort_desc_cons. by apply insert_desc_sorted.
Qed.

(** A list already in descending order is left as it is. *)
Lemma sort_desc_fixpoint l : StronglySorted desc l → sort_desc l = l.
Proof.
  induction 1 as [|x l Hs IH Hall]; [done|].
  rewrite sort_desc_cons, IH. destruct Hall as [|y r Hy _]; cbn; [done|].
  destruct (Z.ltb_spec (LockedBalance x) (LockedBalance y));
  [unfold desc in *; lia | done].
Qed.

(** Insertion does not reorder the records of one balance. *)
Lemma insert_desc_filter b x l :
  filter (has_balance b) (insert_desc x l) = filter (has_balance b) (x :: l).
Proof.
  induction l as [|y r IH]; [done|].
  rewrite insert_desc_cons.
  destruct (Z.ltb_spec (LockedBalance x) (LockedBalance y)) as [Hlt|Hge];
    [|done].
  rewrite !filter_cons, IH, filter_cons.
  unfold has_balance. repeat case_decide; try done; lia.
Qed.

Lemma sort_desc_filter b l :
  filter (has_balance b) (sort_desc l) = filter (has_balance b) l.
Proof.
  induction l as [|x l IH]; [done|].
  by rewrite sort_desc_cons, insert_desc_filter, !filter_cons, IH.
Qed.

(** C7: the ranking is a total function (a definition by structural
    recursion, with no error case), also on the empty snapshot; ranking
    twice is ranking once; the result has [min 20 (length S)] records,
    all of them records of [S], in descending order of [LockedBalance];
    and the records of any one balance come in the order they have in
    [S]. *)
Theorem LockedBalanceTop20_ranking (S : StakeInfos) :
  LockedBalanceTop20 (LockedBalanceTop20 S) = LockedBalanceTop20 S ∧
  length (LockedBalanceTop20 S) = (20 `min` length S)%nat ∧
  StronglySorted desc (LockedBalanceTop20 S) ∧
  (∀ b, filter (has_balance b) (LockedBalanceTop20 S)
          `prefix_of` filter (has_balance b) S) ∧
  LockedBalanceTop20 S ⊆+ S ∧
  LockedBalanceTop20 [] = [].
Proof.
  unfold LockedBalanceTop20.
  assert (StronglySorted desc (take 20 (sort_desc S))) as Hs.
  { eapply StronglySorted_app_1_l. rewrite take_drop. apply sort_desc_sorted. }
  repeat split.
  - by rewrite (sort_desc_fixpoint _ Hs), take_idemp.
  - by rewrite length_take, sort_desc_length.
  - exact Hs.
  - intros b. rewrite <- (sort_desc_filter b S).
    rewrite <- (take_drop 20 (sort_desc S)) at 2.
    rewrite filter_app. by apply prefix_app_r.
  - rewrite <- (sort_desc_Permutation S) at 2.
    apply sublist_submseteq, sublist_take.
Qed.

Example LockedBalanceTop20_example :
  LockedBalanceTop20 [recOf addrA 5; recOf addrB 7; recOf addr0 5; recOf addrB 5]
  = [recOf addrB 7; recOf addrA 5; recOf addr0 5; recOf addrB 5].
Proof. reflexivity. Qed.

(** ** Deposit-event path *)

Lemma deposit_of_log_spec lg w :
  wf_Log lg →
  ∃ w', deposit_of_log lg w = (Val tt, w') ∧ fs w' = fs w ∧
    stakeInfoList w' = stakeInfoList w ++ [deposit_record lg] ∧
    ∃ tr, trace w' = trace w ++ tr ∧ Forall is_log tr.
Proof.
  intros [Ht Hd]. unfold deposit_of_log, deposit_record.
  destruct (Topics lg !! 1%nat) as [staker|] eqn:Hlk.
  2:{ apply lookup_ge_None in Hlk. lia. }
  case_decide; [lia|]. msimpl. eexists. split; [done|]. cbn.
  repeat split. eexists. split; [done|]. solve_Forall.
Qed.

Lemma deposit_loop_spec logs : ∀ w,
  Forall wf_Log logs →
  ∃ w', deposit_loop logs w = (Val tt, w') ∧ fs w' = fs w ∧
    stakeInfoList w' = stakeInfoList w ++ map deposit_record logs ∧
    ∃ tr, trace w' = trace w ++ tr ∧ Forall is_log tr.
Proof.
  induction logs as [|lg logs IH]; intros w Hwf.
  - exists w. cbn. rewrite app_nil_r. repeat split.
    exists []. by rewrite app_nil_r.
  - inversion Hwf as [|? ? Hlg Hrest]; subst.
    destruct (deposit_of_log_spec lg w Hlg) as (w1 & H1 & Hf1 & Ha1 & t1 & Ht1 & Hl1).
    destruct (IH w1 Hrest) as (w2 & H2 & Hf2 & Ha2 & t2 & Ht2 & Hl2).
    exists w2. cbn [deposit_loop]. unfold mbind at 1, M_bind at 1. rewrite H1.
    split; [done|]. split; [congruence|]. split.
    + rewrite Ha2, Ha1. cbn. by rewrite <- app_assoc.
    + exists (t1 ++ t2). rewrite Ht2, Ht1, <- app_assoc.
      split; [done|]. by apply Forall_app.
Qed.




(** ** Block poller *)

Lemma big_Cmp_lt x y : (big_Cmp x y =? -1) = (x <? y).
Proof.
  unfold big_Cmp, Z.ltb. by destruct (x ?= y).
Qed.

Lemma int64_wrap_small x : - 2 ^ 63 <= x < 2 ^ 63 → int64_wrap x = x.
Proof.
  intros Hx. unfold int64_wrap. rewrite Z.mod_small; lia.
Qed.

Lemma traced_nil w : traced w [] = w.
Proof. destruct w. unfold traced. cbn. by rewrite app_nil_r. Qed.

(** Below the confirmation depth a pass waits. *)
Lemma PollBlocks_iter_wait (P : Params) (l : Listener) (env : Env)
    (h retry L : Z) (w : World) :
  StopRequested env = false → retry ≠ 0 → LatestBlock env = (L, None) →
  L - h < BlockConfirmations (Config l) →
  PollBlocks_iter P l env h retry w =
    (Val (Continue h retry),
     traced w [EvLog LvlDebug "Block not ready, will retry";
               EvSleep (BlockRetryInterval P)]).
Proof.
  intros Hstop Hretry Hlatest HD. unfold PollBlocks_iter.
  rewrite Hstop, Hlatest, big_Cmp_lt.
  destruct (Z.eqb_spec retry 0) as [|_]; [done|].
  destruct (Z.ltb_spec (L - h) (BlockConfirmations (Config l))); [|lia].
  msimpl. unfold traced. by rewrite <- app_assoc.
Qed.

(** At the confirmation depth, or above, a pass processes its block. *)
Lemma PollBlocks_iter_process (P : Params) (l : Listener) (env : Env)
    (h retry L : Z) (w : World) :
  StopRequested env = false → retry ≠ 0 → LatestBlock env = (L, None) →
  BlockConfirmations (Config l) <= L - h →
  PollBlocks_iter P l env h retry w =
    match syncStakeInfos P l env h w with
    | (Val None, w') => (Val (Continue (h + 1) (BlockRetryLimit P)), w')
    | (Val (Some e), w') => (Val (Return (Some e)), traced w' [EvStopSend])
    | (Panic msg, w') => (Panic msg, w')
    end.
Proof.
  intros Hstop Hretry Hlatest HD. unfold PollBlocks_iter.
  rewrite Hstop, Hlatest, big_Cmp_lt.
  destruct (Z.eqb_spec retry 0) as [|_]; [done|].
  destruct (Z.ltb_spec (L - h) (BlockConfirmations (Config l))); [lia|].
  unfold mbind, M_bind.
  destruct (syncStakeInfos P l env h w) as [[[e|]|msg] w']; done.
Qed.

(** C5: with the chain at [L], no stop requested and retries left, one
    pass of the loop at height [h] does the following.  If [L - h] is below
    the confirmation depth [D] (as for [L = h + D - 1]) it logs, sleeps and
    asks for the same height again with the same retry budget: nothing
    else in the world has changed, [h] is not processed.  Otherwise (as
    for [L = h + D]) it processes [h]: the pass is the run of
    [syncStakeInfos] at [h], followed by the move to [h + 1] with a full
    budget, or by the stop of the loop on an error. *)
Theorem PollBlocks_confirmation_gating (P : Params) (l : Listener) (env : Env)
    (h retry L : Z) (w : World) :
  StopRequested env = false →
  retry ≠ 0 →
  LatestBlock env = (L, None) →
  let D := BlockConfirmations (Config l) in
  (L - h < D →
     PollBlocks_iter P l env h retry w =
       (Val (Continue h retry),
        traced w [EvLog LvlDebug "Block not ready, will retry";
                  EvSleep (BlockRetryInterval P)])) ∧
  (D <= L - h →
     PollBlocks_iter P l env h retry w =
       match syncStakeInfos P l env h w with
       | (Val None, w') => (Val (Continue (h + 1) (BlockRetryLimit P)), w')
       | (Val (Some e), w') => (Val (Return (Some e)), traced w' [EvStopSend])
       | (Panic msg, w') => (Panic msg, w')
       end).
Proof.
  intros Hstop Hretry Hlatest D. split; intros HD.
  - by apply (PollBlocks_iter_wait P l env h retry L).
  - by apply (PollBlocks_iter_process P l env h retry L).
Qed.

Lemma PollBlocks_confirmation_gating_witness :
  PollBlocks_iter P0 l0 (env_at 1009) 1000 5 w0 =
    (Val (Continue 1000 5),
     traced w0 [EvLog LvlDebug "Block not ready, will retry"; EvSleep 1]) ∧
  PollBlocks_iter P0 l0 (env_at 1010) 1000 5 w0 =
    match syncStakeInfos P0 l0 (env_at 1010) 1000 w0 with
    | (Val None, w') => (Val (Continue 1001 5), w')
    | (Val (Some e), w') => (Val (Return (Some e)), traced w' [EvStopSend])
    | (Panic msg, w') => (Panic msg, w')
    end.
Proof.
  split.
  - by apply (PollBlocks_confirmation_gating P0 l0 (env_at 1009) 1000 5 1009 w0).
  - by apply (PollBlocks_confirmation_gating P0 l0 (env_at 1010) 1000 5 1010 w0).
Defined.

(** What [n] failed fetches leave in the trace. *)
Lemma PollBlocks_loop_failures (P : Params) (l : Listener) (envs : nat → Env)
    (h : Z) (n : nat) : ∀ (i fuel : nat) (w : World),
  Z.of_nat n < 2 ^ 63 →
  (∀ k, (k < n)%nat →
     StopRequested (envs (i + k)%nat) = false ∧
     snd (LatestBlock (envs (i + k)%nat)) ≠ None) →
  (n < fuel)%nat →
  PollBlocks_loop fuel P l envs i h (Z.of_nat n) w =
    if StopRequested (envs (i + n)%nat)
    then (Val (Some (Some "polling terminated")),
          traced w (mjoin (replicate n
            [EvLog LvlError "Unable to get latest block";
             EvSleep (BlockRetryInterval P)])))
    else (Val (Some None),
          traced w (mjoin (replicate n
            [EvLog LvlError "Unable to get latest block";
             EvSleep (BlockRetryInterval P)]) ++
            [EvLog LvlError "Polling failed, retries exceeded"; EvStopSend])).
Proof.
  induction n as [|n IH]; intros i fuel w Hn Hfail Hfuel.
  - destruct fuel as [|fuel]; [lia|]. cbn [PollBlocks_loop].
    unfold mbind, M_bind, PollBlocks_iter. rewrite Nat.add_0_r.
    destruct (StopRequested (envs i)); cbn.
    + by rewrite traced_nil.
    + change (Z.of_nat 0 =? 0) with true. msimpl.
      unfold traced. cbn. by rewrite <- app_assoc.
  - destruct fuel as [|fuel]; [lia|]. cbn [PollBlocks_loop].
    destruct (Hfail 0%nat) as [Hs Hl]; [lia|]. rewrite Nat.add_0_r in Hs, Hl.
    unfold mbind at 1, M_bind at 1. unfold PollBlocks_iter at 1. rewrite Hs.
    destruct (Z.eqb_spec (Z.of_nat (S n)) 0) as [|_]; [lia|].
    destruct (LatestBlock (envs i)) as [L [e|]]; [|done].
    msimpl. rewrite int64_wrap_small by lia.
    replace (Z.of_nat (S n) - 1) with (Z.of_nat n) by lia.
    rewrite IH; [| lia | | lia].
    2:{ intros k Hk. replace (S i + k)%nat with (i + S k)%nat by lia.
        apply Hfail. lia. }
    replace (S i + n)%nat with (i + S n)%nat by lia.
    destruct (StopRequested (envs (i + S n)%nat)); unfold traced; cbn;
      by rewrite <- !app_assoc.
Qed.

(** C6: from a full budget [R = BlockRetryLimit], if the fetch of the
    latest block fails in [R] passes in a row, the loop ends (any fuel
    above [R] is enough): it logs that the retries are exceeded, signals
    the stop and returns nil, unless a stop request reaches the next pass
    first, which ends the loop all the same.  In both cases all the run
    leaves behind is the [R] failures in the trace: the file system and
    the accumulator are as before and nothing was submitted, so no height
    was processed.  And a pass that processes its block without error
    goes on with the next height and the full budget [R]. *)
Theorem PollBlocks_retry_exhaustion (P : Params) (l : Listener)
    (envs : nat → Env) (i : nat) (h : Z) (w : World) :
  let R := BlockRetryLimit P in
  let failures := mjoin (replicate (Z.to_nat R)
                    [EvLog LvlError "Unable to get latest block";
                     EvSleep (BlockRetryInterval P)]) in
  0 <= R < 2 ^ 63 →
  (∀ k, (k < Z.to_nat R)%nat →
     StopRequested (envs (i + k)%nat) = false ∧
     snd (LatestBlock (envs (i + k)%nat)) ≠ None) →
  (∀ fuel, (Z.to_nat R < fuel)%nat →
     PollBlocks_loop fuel P l envs i h R w =
       if StopRequested (envs (i + Z.to_nat R)%nat)
       then (Val (Some (Some "polling terminated")), traced w failures)
       else (Val (Some None),
             traced w (failures ++
               [EvLog LvlError "Polling failed, retries exceeded"; EvStopSend]))) ∧
  (∀ env retry L h' w1 w2,
     StopRequested env = false → retry ≠ 0 → LatestBlock env = (L, None) →
     BlockConfirmations (Config l) <= L - h' →
     syncStakeInfos P l env h' w1 = (Val None, w2) →
     PollBlocks_iter P l env h' retry w1 = (Val (Continue (h' + 1) R), w2)).
Proof.
  intros R failures HR Hfail. split.
  - intros fuel Hfuel. subst failures.
    rewrite <- (Z2Nat.id R) at 1 by lia.
    apply PollBlocks_loop_failures; [lia | done | done].
  - intros env retry L h' w1 w2 Hs Hr HL HD Hsync.
    rewrite (PollBlocks_iter_process P l env h' retry L w1 Hs Hr HL HD).
    by rewrite Hsync.
Qed.

Lemma PollBlocks_retry_exhaustion_witness :
  PollBlocks_loop 6 P0 l0 (λ _, env_offline) 0 1000 5 w0 =
    (Val (Some None),
     traced w0 (mjoin (replicate 5 [EvLog LvlError "Unable to get latest block";
                                    EvSleep 1]) ++
                [EvLog LvlError "Polling failed, retries exceeded"; EvStopSend])).
Proof.
  destruct (PollBlocks_retry_exhaustion P0 l0 (λ _, env_offline) 0 1000 w0)
    as [Hloop _].
  - cbn. lia.
  - intros k _. cbn. split; [done | discriminate].
  - apply (Hloop 6%nat). cbn. lia.
Defined.

(** ** The serializer *)

Lemma byte_of_N_to_N n : Byte.to_N (byte_of_N n) = (n mod 256)%N.
Proof.
  unfold byte_of_N.
  pose proof (Byte.to_of_N_option_map (n mod 256)) as H.
  pose proof (N.mod_upper_bound n 256).
  destruct (Byte.of_N (n mod 256)) as [b|]; cbn in *.
  - destruct (N.leb_spec (n mod 256) 255); [congruence | lia].
  - destruct (N.leb_spec (n mod 256) 255); [congruence | lia].
Qed.

Lemma byte_of_N_small n : (n < 256)%N → Byte.to_N (byte_of_N n) = n.
Proof. intros. rewrite byte_of_N_to_N. by apply N.mod_small. Qed.

(** *** Big-endian numbers *)

Lemma be_value_foldl a bs :
  foldl (λ acc b, acc * 256 + Byte.to_N b)%N a bs =
  (a * 256 ^ N.of_nat (length bs) + be_value bs)%N.
Proof.
  unfold be_value. revert a.
  induction bs as [|b bs IH]; intros a; cbn [foldl length].
  - cbn. lia.
  - rewrite IH, (IH (0 * 256 + Byte.to_N b)%N).
    rewrite Nat2N.inj_succ, N.pow_succ_r'. lia.
Qed.

Lemma be_bytes_go_app fuel : ∀ n acc,
  be_bytes_go fuel n acc = be_bytes_go fuel n [] ++ acc.
Proof.
  induction fuel as [|fuel IH]; intros n acc; cbn; [done|].
  destruct (n =? 0)%N; [done|].
  rewrite IH, (IH _ [_]). by rewrite <- app_assoc.
Qed.

Lemma be_bytes_go_value fuel : ∀ n,
  (n < 2 ^ N.of_nat fuel)%N → be_value (be_bytes_go fuel n []) = n.
Proof.
  induction fuel as [|fuel IH]; intros n Hn.
  - cbn in *. unfold be_value. cbn. lia.
  - cbn [be_bytes_go]. destruct (N.eqb_spec n 0) as [->|Hnz]; [done|].
    rewrite be_bytes_go_app.
    unfold be_value. rewrite foldl_app. fold (be_value (be_bytes_go fuel (n / 256) [])).
    assert (n / 256 < 2 ^ N.of_nat fuel)%N as Hdiv.
    { rewrite Nat2N.inj_succ, N.pow_succ_r' in Hn.
      apply N.Div0.div_lt_upper_bound. lia. }
    rewrite (IH _ Hdiv). cbn [foldl]. rewrite byte_of_N_to_N.
    pose proof (N.div_mod n 256). lia.
Qed.

Lemma be_bytes_value n : be_value (be_bytes n) = n.
Proof.
  unfold be_bytes. apply be_bytes_go_value.
  rewrite N2Nat.id. apply N.size_gt.
Qed.

(** The first byte of a positive number is not zero. *)
Lemma be_bytes_go_head fuel : ∀ n,
  n ≠ 0%N → (n < 2 ^ N.of_nat fuel)%N →
  ∃ b rest, be_bytes_go fuel n [] = b :: rest ∧ Byte.to_N b ≠ 0%N.
Proof.
  induction fuel as [|fuel IH]; intros n Hnz Hn.
  - cbn in Hn. lia.
  - cbn [be_bytes_go]. destruct (N.eqb_spec n 0) as [|_]; [done|].
    rewrite be_bytes_go_app.
    assert (n / 256 < 2 ^ N.of_nat fuel)%N as Hdiv.
    { rewrite Nat2N.inj_succ, N.pow_succ_r' in Hn.
      apply N.Div0.div_lt_upper_bound. lia. }
    destruct (N.eq_dec (n / 256)%N 0%N) as [Hz|Hq].
    + rewrite Hz. exists (byte_of_N n), [].
      split; [by destruct fuel|].
      rewrite byte_of_N_to_N. apply N.div_small_iff in Hz; [|done].
      rewrite N.mod_small; done.
    + destruct (IH _ Hq Hdiv) as (b & rest & -> & Hb).
      by exists b, (rest ++ [byte_of_N n]).
Qed.

Lemma be_bytes_head n :
  n ≠ 0%N → ∃ b rest, be_bytes n = b :: rest ∧ Byte.to_N b ≠ 0%N.
Proof.
  intros Hnz. unfold be_bytes. apply be_bytes_go_head; [done|].
  rewrite N2Nat.id. apply N.size_gt.
Qed.

Lemma be_bytes_go_length fuel : ∀ n k,
  (n < 256 ^ N.of_nat k)%N → (length (be_bytes_go fuel n []) ≤ k)%nat.
Proof.
  induction fuel as [|fuel IH]; intros n k Hn; cbn [be_bytes_go]; [cbn; lia|].
  destruct (N.eqb_spec n 0) as [|Hnz]; [cbn; lia|].
  destruct k as [|k]; [cbn in Hn; lia|].
  rewrite be_bytes_go_app, length_app. cbn [length].
  rewrite Nat2N.inj_succ, N.pow_succ_r' in Hn.
  assert (n / 256 < 256 ^ N.of_nat k)%N as Hdiv
    by (apply N.Div0.div_lt_upper_bound; lia).
  specialize (IH _ _ Hdiv). lia.
Qed.

Lemma be_bytes_length n : (n < 2 ^ 64)%N → (length (be_bytes n) ≤ 8)%nat.
Proof.
  intros Hn. unfold be_bytes. apply be_bytes_go_length.
  by change (256 ^ N.of_nat 8)%N with (2 ^ 64)%N.
Qed.

(** *** Items *)

Lemma split_at_app (a b : bytes) : split_at (length a) (a ++ b) = Some (a, b).
Proof.
  unfold split_at. rewrite length_app. case_decide; [|lia].
  by rewrite take_app_length, drop_app_length.
Qed.

Lemma rlp_decode_size_be (len : nat) (p : bytes) :
  (56 ≤ len)%nat →
  rlp_decode_size (length (be_bytes (N.of_nat len)))
    (be_bytes (N.of_nat len) ++ p) = Some (len, p).
Proof.
  intros Hlen. unfold rlp_decode_size. rewrite split_at_app. cbn.
  destruct (be_bytes_head (N.of_nat len)) as (b & r & Hbe & Hb); [lia|].
  rewrite Hbe. rewrite <- Hbe, be_bytes_value.
  destruct (N.eqb_spec (Byte.to_N b) 0); [done|].
  destruct (N.ltb_spec (N.of_nat len) 56); [lia|].
  by rewrite Nat2N.id.
Qed.

Lemma rlp_decode_item_unfold fuel b rest :
  rlp_decode_item (S fuel) (b :: rest) =
    let t := Byte.to_N b in
    if (t <? 128)%N then Some (Str [b], rest)
    else if (t <? 184)%N then
      '(s, rest') ← split_at (N.to_nat (t - 128)) rest;
      match s with
      | [c] => if (Byte.to_N c <? 128)%N then None else Some (Str s, rest')
      | _ => Some (Str s, rest')
      end
    else if (t <? 192)%N then
      '(n, rest1) ← rlp_decode_size (N.to_nat (t - 183)) rest;
      '(s, rest') ← split_at n rest1;
      Some (Str s, rest')
    else if (t <? 248)%N then
      '(p, rest') ← split_at (N.to_nat (t - 192)) rest;
      l ← rlp_decode_list fuel p;
      Some (Lst l, rest')
    else
      '(n, rest1) ← rlp_decode_size (N.to_nat (t - 247)) rest;
      '(p, rest') ← split_at n rest1;
      l ← rlp_decode_list fuel p;
      Some (Lst l, rest').
Proof. reflexivity. Qed.

(** How a header is read back, for a string ([base = 128]) or a list
    ([base = 192]): the first byte, and what the size decoder makes of
    the rest. *)
Lemma rlp_header_spec (base : N) (p rest : bytes) :
  (base = 128 ∨ base = 192)%N →
  Z.of_nat (length p) < 2 ^ 64 →
  ∃ h hs, rlp_header base (length p) = h :: hs ∧
    (((length p < 56)%nat ∧ hs = [] ∧
      Byte.to_N h = (base + N.of_nat (length p))%N) ∨
     ((56 ≤ length p)%nat ∧
      (1 ≤ length hs ≤ 8)%nat ∧
      Byte.to_N h = (base + 55 + N.of_nat (length hs))%N ∧
      rlp_decode_size (length hs) (hs ++ p ++ rest) = Some (length p, p ++ rest))).
Proof.
  intros Hbase Hlen. unfold rlp_header.
  destruct (N.ltb_spec (N.of_nat (length p)) 56) as [Hs|Hl].
  - eexists _, []. split; [done|]. left. split; [lia|]. split; [done|].
    rewrite byte_of_N_small; [done|]. lia.
  - eexists _, _. split; [done|]. right. split; [lia|].
    assert (length (be_bytes (N.of_nat (length p))) ≤ 8)%nat as H8
      by (apply be_bytes_length; lia).
    destruct (be_bytes_head (N.of_nat (length p))) as (b & r & Hbe & _); [lia|].
    assert (1 ≤ length (be_bytes (N.of_nat (length p))))%nat as H1
      by (rewrite Hbe; cbn; lia).
    split; [lia|]. split.
    + rewrite byte_of_N_small; [done|]. lia.
    + apply rlp_decode_size_be. lia.
Qed.

Lemma rlp_header_nonempty base len : rlp_header base len ≠ [].
Proof. unfold rlp_header. by destruct (_ <? _)%N. Qed.

Lemma rlp_encode_nonempty it : rlp_encode it ≠ [].
Proof.
  destruct it as [s|l]; cbn [rlp_encode].
  - destruct s as [|b [|c s]]; try destruct (_ <? _)%N; try done;
      (intros H; apply app_eq_nil in H as [H _]; by apply rlp_header_nonempty in H).
  - intros H. apply app_eq_nil in H as [H _]. by apply rlp_header_nonempty in H.
Qed.

Lemma item_ind' (P : item → Prop) :
  (∀ s, P (Str s)) → (∀ l, Forall P l → P (Lst l)) → ∀ it, P it.
Proof.
  intros HS HL. fix IH 1. intros [s|l]; [apply HS|].
  apply HL. induction l as [|x l IHl]; constructor; [apply IH | exact IHl].
Qed.

Lemma rlp_decode_list_unfold fuel b bs :
  rlp_decode_list (S fuel) (b :: bs) =
    '(it, rest) ← rlp_decode_item fuel (b :: bs);
    l ← rlp_decode_list fuel rest;
    Some (it :: l).
Proof. reflexivity. Qed.

Lemma rlp_decode_list_nil fuel : rlp_decode_list fuel [] = Some [].
Proof. by destruct fuel. Qed.

(** Decoding the encodings of the items of a list, one after the other,
    given that each of them is read back. *)
Lemma rlp_decode_list_encode (l : list item) :
  Forall (λ x, ∀ fuel rest,
            (2 * length (rlp_encode x) ≤ S fuel)%nat →
            rlp_decode_item fuel (rlp_encode x ++ rest) = Some (x, rest)) l →
  ∀ fuel, (2 * length (concat (map rlp_encode l)) ≤ fuel)%nat →
    rlp_decode_list fuel (concat (map rlp_encode l)) = Some l.
Proof.
  induction 1 as [|x l Hx _ IH]; intros fuel Hfuel; cbn [map concat].
  - apply rlp_decode_list_nil.
  - cbn [map concat] in Hfuel. rewrite length_app in Hfuel.
    pose proof (rlp_encode_nonempty x) as Hne.
    destruct (rlp_encode x) as [|b bs] eqn:Hex; [done|].
    destruct fuel as [|fuel]; [cbn in Hfuel; lia|].
    cbn [app]. rewrite rlp_decode_list_unfold.
    change (b :: bs ++ concat (map rlp_encode l))
      with ((b :: bs) ++ concat (map rlp_encode l)).
    rewrite Hx by (cbn [length] in *; lia). cbn.
    rewrite IH by (cbn [length] in *; lia). done.
Qed.

Lemma rlp_encode_Lst_length l :
  (length (concat (map rlp_encode l)) < length (rlp_encode (Lst l)))%nat.
Proof.
  cbn [rlp_encode]. rewrite length_app.
  pose proof (rlp_header_nonempty 192 (length (concat (map rlp_encode l)))).
  destruct (rlp_header _ _); [done|]. cbn. lia.
Qed.

Lemma concat_length_elem (x : bytes) (ls : list bytes) :
  x ∈ ls → (length x ≤ length (concat ls))%nat.
Proof.
  induction 1; cbn; rewrite length_app; lia.
Qed.

(** A string that is not a single byte below 128 is written with a
    header, and read back. *)
Lemma rlp_decode_item_string (s rest : bytes) fuel :
  (∀ c, s = [c] → (128 ≤ Byte.to_N c)%N) →
  Z.of_nat (length s) < 2 ^ 64 →
  rlp_decode_item (S fuel) ((rlp_header 128 (length s) ++ s) ++ rest) =
    Some (Str s, rest).
Proof.
  intros Hc Hlen.
  destruct (rlp_header_spec 128 s rest) as (h & hs & -> & Hh); [by left | done |].
  rewrite <- app_assoc. cbn [app]. rewrite rlp_decode_item_unfold. cbn zeta.
  destruct Hh as [(Hs & -> & Ht) | (Hl & Hll & Ht & Hsize)]; rewrite Ht.
  - destruct (N.ltb_spec (128 + N.of_nat (length s)) 128); [lia|].
    destruct (N.ltb_spec (128 + N.of_nat (length s)) 184); [|lia].
    replace (N.to_nat (128 + N.of_nat (length s) - 128)) with (length s) by lia.
    cbn [app]. rewrite split_at_app. cbn.
    destruct s as [|c [|c' s']]; [done | | done].
    specialize (Hc c eq_refl). by destruct (N.ltb_spec (Byte.to_N c) 128); [lia|].
  - destruct (N.ltb_spec (128 + 55 + N.of_nat (length hs)) 128); [lia|].
    destruct (N.ltb_spec (128 + 55 + N.of_nat (length hs)) 184); [lia|].
    destruct (N.ltb_spec (128 + 55 + N.of_nat (length hs)) 192); [|lia].
    replace (N.to_nat (128 + 55 + N.of_nat (length hs) - 183)) with (length hs)
      by lia.
    rewrite Hsize. cbn. by rewrite split_at_app.
Qed.

(** A list is read back once its payload is. *)
Lemma rlp_decode_item_list (l : list item) (rest : bytes) fuel :
  let p := concat (map rlp_encode l) in
  Z.of_nat (length p) < 2 ^ 64 →
  rlp_decode_list fuel p = Some l →
  rlp_decode_item (S fuel) ((rlp_header 192 (length p) ++ p) ++ rest) =
    Some (Lst l, rest).
Proof.
  intros p Hlen Hp.
  destruct (rlp_header_spec 192 p rest) as (h & hs & -> & Hh); [by right | done |].
  rewrite <- app_assoc. cbn [app]. rewrite rlp_decode_item_unfold. cbn zeta.
  destruct Hh as [(Hs & -> & Ht) | (Hl & Hll & Ht & Hsize)]; rewrite Ht.
  - destruct (N.ltb_spec (192 + N.of_nat (length p)) 128); [lia|].
    destruct (N.ltb_spec (192 + N.of_nat (length p)) 184); [lia|].
    destruct (N.ltb_spec (192 + N.of_nat (length p)) 192); [lia|].
    destruct (N.ltb_spec (192 + N.of_nat (length p)) 248); [|lia].
    replace (N.to_nat (192 + N.of_nat (length p) - 192)) with (length p) by lia.
    cbn [app]. rewrite split_at_app. cbn. by rewrite Hp.
  - destruct (N.ltb_spec (192 + 55 + N.of_nat (length hs)) 128); [lia|].
    destruct (N.ltb_spec (192 + 55 + N.of_nat (length hs)) 184); [lia|].
    destruct (N.ltb_spec (192 + 55 + N.of_nat (length hs)) 192); [lia|].
    destruct (N.ltb_spec (192 + 55 + N.of_nat (length hs)) 248); [lia|].
    replace (N.to_nat (192 + 55 + N.of_nat (length hs) - 247)) with (length hs)
      by lia.
    rewrite Hsize. cbn. rewrite split_at_app. cbn. by rewrite Hp.
Qed.

(** Decoding undoes encoding, for any item whose encoding Go can hold. *)
Lemma rlp_decode_item_encode (it : item) :
  Z.of_nat (length (rlp_encode it)) < 2 ^ 64 →
  ∀ fuel rest, (2 * length (rlp_encode it) ≤ S fuel)%nat →
    rlp_decode_item fuel (rlp_encode it ++ rest) = Some (it, rest).
Proof.
  induction it as [s|l IH] using item_ind'; intros Hsmall fuel rest Hfuel.
  - pose proof (rlp_encode_nonempty (Str s)) as Hne.
    destruct fuel as [|fuel];
      [destruct (rlp_encode (Str s)); [done | cbn in Hfuel; lia]|].
    cbn [rlp_encode] in *.
    destruct s as [|b [|c s']].
    + apply rlp_decode_item_string; [done | cbn; lia].
    + destruct (N.ltb_spec (Byte.to_N b) 128) as [Hb|Hb].
      * cbn [app]. rewrite rlp_decode_item_unfold. cbn zeta.
        by destruct (N.ltb_spec (Byte.to_N b) 128); [|lia].
      * apply (rlp_decode_item_string [b]); [by intros ? [= <-] | cbn; lia].
    + apply rlp_decode_item_string; [done|].
      rewrite length_app in Hsmall. lia.
  - pose proof (rlp_encode_Lst_length l) as Hpl.
    destruct fuel as [|fuel]; [lia|].
    cbn [rlp_encode] in *.
    apply rlp_decode_item_list; [lia|].
    apply rlp_decode_list_encode; [|lia].
    apply Forall_forall. intros x Hx fuel' rest' Hfuel'.
    rewrite Forall_forall in IH. apply IH; [done | | done].
    pose proof (concat_length_elem (rlp_encode x) (map rlp_encode l)
                  (list_elem_of_fmap_2 _ _ _ Hx)). lia.
Qed.

Lemma rlp_decode_encode (it : item) :
  Z.of_nat (length (rlp_encode it)) < 2 ^ 64 →
  rlp_decode (rlp_encode it) = Some it.
Proof.
  intros Hsmall. unfold rlp_decode.
  rewrite <- (app_nil_r (rlp_encode it)) at 2.
  rewrite rlp_decode_item_encode; [done | done | lia].
Qed.

(** *** Stake records *)

Lemma uint_of_to_item n : 0 <= n → uint_of_item (uint_to_item n) = Some n.
Proof.
  intros Hn. unfold uint_to_item, uint_of_item.
  destruct (decide (n = 0)) as [->|Hnz]; [done|].
  destruct (be_bytes_head (Z.to_N n)) as (b & r & Hbe & Hb); [lia|].
  rewrite Hbe. destruct (N.eqb_spec (Byte.to_N b) 0); [done|].
  rewrite <- Hbe, be_bytes_value. f_equal. lia.
Qed.

Lemma bool_of_to_item b : bool_of_item (bool_to_item b) = Some b.
Proof. by destruct b. Qed.

Lemma StakeInfo_of_to_item s :
  wf_StakeInfo s → 0 <= LockedBalance s →
  StakeInfo_of_item (StakeInfo_to_item s) = Some s.
Proof.
  intros [Hcb Hwc] Hlb. unfold StakeInfo_of_item, StakeInfo_to_item.
  cbv beta iota. case_decide; [|done].
  rewrite bool_of_to_item. cbn [mbind option_bind].
  rewrite uint_of_to_item by lia. cbn [mbind option_bind].
  rewrite uint_of_to_item by lia. cbn [mbind option_bind].
  destruct (Z.ltb_spec (WorkCount s) (2 ^ 32)); [|lia].
  by destruct s.
Qed.

Lemma mapM_StakeInfo_of_to_item (S : StakeInfos) :
  Forall wf_StakeInfo S →
  forallb (λ s, 0 <=? LockedBalance s) S = true →
  mapM StakeInfo_of_item (map StakeInfo_to_item S) = Some S.
Proof.
  intros Hwf Hpos. rewrite forallb_forall in Hpos.
  change (map StakeInfo_to_item S) with (StakeInfo_to_item <$> S).
  apply mapM_fmap_Forall_Some.
  rewrite Forall_forall in Hwf. apply Forall_forall. intros s Hs.
  apply StakeInfo_of_to_item; [by apply Hwf|].
  apply list_elem_of_In, Hpos in Hs. lia.
Qed.

(** What [rlp.EncodeToBytes] writes, [rlp.DecodeBytes] reads back. *)
Lemma rlp_DecodeBytes_EncodeToBytes (S : StakeInfos) (data : bytes) :
  Forall wf_StakeInfo S →
  rlp_EncodeToBytes S = (data, None) →
  Z.of_nat (length data) < 2 ^ 64 →
  rlp_DecodeBytes data = (S, None) ∧ data ≠ [].
Proof.
  intros Hwf Henc Hsmall. unfold rlp_EncodeToBytes in Henc.
  destruct (forallb _ S) eqn:Hpos; [|done].
  assert (data = rlp_encode (Lst (map StakeInfo_to_item S))) as ->
    by congruence.
  split; [|apply rlp_encode_nonempty].
  unfold rlp_DecodeBytes. rewrite rlp_decode_encode by done.
  by rewrite mapM_StakeInfo_of_to_item.
Qed.

(** ** Persistence layer: round trip *)

Lemma fileExists_present file w data :
  file ∉ denied (fs w) → files (fs w) !! file = Some data →
  fileExists file w = (Val (true, None), w).
Proof.
  intros Hnd Hlk. unfold fileExists, os_Stat. msimpl.
  destruct (decide (file ∈ denied (fs w))); [done|].
  destruct (decide (is_Some (files (fs w) !! file) ∨ file ∈ dirs (fs w)))
    as [_|Hno]; [done|].
  destruct Hno. left. by eexists.
Qed.

Lemma ioutil_ReadFile_present file w data :
  file ∉ denied (fs w) → files (fs w) !! file = Some data →
  ioutil_ReadFile file w = (Val (data, None), w).
Proof.
  intros Hnd Hlk. unfold ioutil_ReadFile. msimpl.
  destruct (decide (file ∈ denied (fs w))); [done|]. by rewrite Hlk.
Qed.

(** C8: once [WriteStakeInfos file S] has succeeded, [ReadStakeInfos file]
    returns [S] and a nil error (and changes nothing).  [S] is any
    snapshot a Go program can hold: of any length, empty or not, with
    balances equal or not; its records have their 32-byte [Coinbase] and
    32-bit [WorkCount], and its encoding is shorter than 2^64 bytes. *)
Theorem snapshot_round_trip (file : string) (S : StakeInfos) (w w' : World) :
  Forall wf_StakeInfo S →
  Z.of_nat (length (fst (rlp_EncodeToBytes S))) < 2 ^ 64 →
  WriteStakeInfos file S w = (Val None, w') →
  ReadStakeInfos file w' = (Val (S, None), w').
Proof.
  intros Hwf Hsmall Hwrite.
  apply WriteStakeInfos_success in Hwrite
    as (data & mk & Henc & _ & _ & Hfiles & Hden & Hnd & _).
  rewrite Henc in Hsmall. cbn in Hsmall.
  destruct (rlp_DecodeBytes_EncodeToBytes S data Hwf Henc Hsmall) as [Hdec Hne].
  assert (files (fs w') !! file = Some data) as Hlk
    by (by rewrite Hfiles, lookup_insert_eq).
  rewrite <- Hden in Hnd.
  unfold ReadStakeInfos.
  unfold mbind at 1, M_bind at 1.
  rewrite (fileExists_present _ _ _ Hnd Hlk). cbn [negb].
  unfold mbind at 1, M_bind at 1.
  rewrite (ioutil_ReadFile_present _ _ _ Hnd Hlk).
  destruct (Nat.eqb_spec (length data) 0) as [Hz|_].
  { by apply nil_length_inv in Hz. }
  by rewrite Hdec.
Qed.

Lemma snapshot_round_trip_witness :
  ReadStakeInfos "data/stake_info"
    (snd (WriteStakeInfos "data/stake_info" snapshot20 w0)) =
  (Val (snapshot20, None), snd (WriteStakeInfos "data/stake_info" snapshot20 w0)).
Proof.
  apply (snapshot_round_trip "data/stake_info" snapshot20 w0).
  - apply Forall_forall. intros s Hs.
    apply list_elem_of_fmap in Hs as (i & -> & _). split; [done | cbn; lia].
  - vm_compute. reflexivity.
  - assert (fst (WriteStakeInfos "data/stake_info" snapshot20 w0) = Val None)
      as Hr by (vm_compute; reflexivity).
    destruct (WriteStakeInfos "data/stake_info" snapshot20 w0). cbn in *.
    by subst.
Defined.

Example snapshot_round_trip_empty :
  ReadStakeInfos "data/stake_info"
    (snd (WriteStakeInfos "data/stake_info" [] w0)) =
  (Val ([], None), snd (WriteStakeInfos "data/stake_info" [] w0)).
Proof. vm_compute. reflexivity. Qed.

(** * Further properties *)

(** ** The cursor file *)

Lemma digit_of_pretty_char d :
  (d < 10)%N → digit_of_ascii (pretty_N_char d) = Some d.
Proof.
  intros Hd.
  assert (d = 0 ∨ d = 1 ∨ d = 2 ∨ d = 3 ∨ d = 4 ∨ d = 5 ∨ d = 6 ∨ d = 7
          ∨ d = 8 ∨ d = 9)%N as Hcases by lia.
  repeat (destruct Hcases as [->|Hcases]; [reflexivity|]). by subst.
Qed.

Lemma scan_digits_pretty_go x : ∀ s,
  (0 < x)%N → scan_digits 0 (pretty_N_go x s) = scan_digits x s.
Proof.
  induction (N.lt_wf_0 x) as [x _ IH]; intros s Hx.
  rewrite pretty_N_go_step by done.
  pose proof (N.mod_upper_bound x 10) as Hm.
  pose proof (N.div_mod x 10) as Hdm.
  destruct (N.eq_dec (x / 10)%N 0%N) as [Hz|Hnz].
  - rewrite Hz, pretty_N_go_0. cbn [scan_digits].
    rewrite digit_of_pretty_char by lia. cbn. f_equal. lia.
  - rewrite IH; [| apply N.div_lt; lia | lia].
    cbn [scan_digits]. rewrite digit_of_pretty_char by lia. cbn. f_equal. lia.
Qed.

Lemma pretty_N_go_head x : ∀ s,
  (0 < x)%N →
  ∃ d r, (d < 10)%N ∧ pretty_N_go x s = String (pretty_N_char d) r.
Proof.
  induction (N.lt_wf_0 x) as [x _ IH]; intros s Hx.
  rewrite pretty_N_go_step by done.
  pose proof (N.mod_upper_bound x 10) as Hm.
  destruct (N.eq_dec (x / 10)%N 0%N) as [Hz|Hnz].
  - rewrite Hz, pretty_N_go_0. exists (x `mod` 10)%N, s.
    split; [apply N.mod_upper_bound; lia | done].
  - apply IH; [apply N.div_lt; lia | by apply N.neq_0_lt_0].
Qed.

Lemma pretty_N_char_not_sign d :
  (d < 10)%N →
  bool_decide (String (pretty_N_char d) EmptyString = "-") = false ∧
  bool_decide (String (pretty_N_char d) EmptyString = "+") = false.
Proof.
  intros Hd.
  assert (d = 0 ∨ d = 1 ∨ d = 2 ∨ d = 3 ∨ d = 4 ∨ d = 5 ∨ d = 6 ∨ d = 7
          ∨ d = 8 ∨ d = 9)%N as Hcases by lia.
  repeat (destruct Hcases as [->|Hcases]; [by split|]). by subst.
Qed.

Lemma big_SetString10_pos p :
  big_SetString10 (pretty_N_go (N.pos p) EmptyString) = Some (Z.pos p).
Proof.
  destruct (pretty_N_go_head (N.pos p) EmptyString) as (d & r & Hd & Hs); [lia|].
  unfold big_SetString10. rewrite Hs.
  destruct (pretty_N_char_not_sign d Hd) as [-> ->].
  rewrite <- Hs, scan_digits_pretty_go by lia. done.
Qed.

Lemma big_SetString10_neg s :
  s ≠ EmptyString →
  big_SetString10 ("-" +:+ s) = n ← scan_digits 0 s; Some (- Z.of_N n).
Proof. by destruct s. Qed.

(** [SetString] reads back what [String] prints. *)
Lemma big_SetString10_pretty (z : Z) : big_SetString10 (pretty z) = Some z.
Proof.
  destruct z as [|p|p]; [done | apply big_SetString10_pos |].
  change (pretty (Z.neg p))
    with ("-" +:+ pretty_N_go (N.pos p) EmptyString).
  destruct (pretty_N_go_head (N.pos p) EmptyString) as (d & r & Hd & Hs); [lia|].
  rewrite big_SetString10_neg by (by rewrite Hs).
  by rewrite scan_digits_pretty_go by lia.
Qed.

Lemma WriteLatestBlock_written file number w w' :
  WriteLatestBlock file number w = (Val None, w') →
  files (fs w') !! file = Some (bytes_of_string (pretty number)) ∧
  file ∉ denied (fs w').
Proof.
  unfold WriteLatestBlock. intros H.
  apply bind_inv in H as [(err & w1 & H1 & H2) | (msg & H1 & ?)]; [|done].
  apply ensure_dir_spec in H1 as (err' & mk & Herr & Ht & Hmk & Hf & Hd & Ha).
  injection Herr as <-.
  destruct err as [e|]; [by msimpl|].
  apply bind_inv in H2 as [(err & w2 & H2 & H3) | (msg & H2 & ?)]; [|done].
  apply ioutil_WriteFile_spec in H2 as [([= ->] & Hnd & ->) | (e & [= ->] & ->)];
    [|by msimpl].
  msimpl. injection H3 as <-. cbn. by rewrite lookup_insert_eq.
Qed.

(** X1: the cursor survives the file: once [WriteLatestBlock file n] has
    succeeded, [ReadLatestBlock file] returns [n], with a nil error, and
    changes nothing.  [n] is any integer. *)
Theorem cursor_round_trip (file : string) (n : Z) (w w' : World) :
  WriteLatestBlock file n w = (Val None, w') →
  ReadLatestBlock file w' = (Val (Some n, None), w').
Proof.
  intros [Hlk Hnd]%WriteLatestBlock_written. unfold ReadLatestBlock.
  unfold mbind at 1, M_bind at 1. rewrite (fileExists_present _ _ _ Hnd Hlk).
  unfold mbind at 1, M_bind at 1.
  rewrite (ioutil_ReadFile_present _ _ _ Hnd Hlk).
  unfold bytes_of_string.
  by rewrite String.string_of_list_byte_of_string, big_SetString10_pretty.
Qed.

Lemma cursor_round_trip_witness :
  ReadLatestBlock "data/latest_block"
    (snd (WriteLatestBlock "data/latest_block" 123000 w0)) =
  (Val (Some 123000, None), snd (WriteLatestBlock "data/latest_block" 123000 w0)).
Proof.
  apply (cursor_round_trip "data/latest_block" 123000 w0).
  assert (fst (WriteLatestBlock "data/latest_block" 123000 w0) = Val None) as Hr
    by (vm_compute; reflexivity).
  destruct (WriteLatestBlock "data/latest_block" 123000 w0). cbn in *.
  by subst.
Defined.

(** X2: without a cursor file (nothing at the path, and the path can be
    looked up), [ReadLatestBlock] returns block 0 with a nil error, and
    changes nothing. *)
Theorem ReadLatestBlock_missing (file : string) (w : World) :
  file ∉ denied (fs w) →
  files (fs w) !! file = None →
  file ∉ dirs (fs w) →
  ReadLatestBlock file w = (Val (Some 0, None), w).
Proof.
  intros Hnd Hnf Hndir. unfold ReadLatestBlock, fileExists, os_Stat. msimpl.
  destruct (decide (file ∈ denied (fs w))); [done|].
  destruct (decide (is_Some (files (fs w) !! file) ∨ file ∈ dirs (fs w)))
    as [[[x Hx]|Hx]|_]; [congruence | done | done].
Qed.

Lemma ReadLatestBlock_missing_witness :
  ReadLatestBlock "data/latest_block" w0 = (Val (Some 0, None), w0).
Proof.
  apply (ReadLatestBlock_missing "data/latest_block" w0); vm_compute; done.
Defined.

Lemma scan_digits_not_all_digits s : ∀ acc,
  all_digits s = false → scan_digits acc s = None.
Proof.
  induction s as [|c r IH]; intros acc; cbn; [done|].
  destruct (digit_of_ascii c) as [d|]; cbn; [|done].
  intros H. by apply IH.
Qed.

(** X3: a cursor file that can be read never makes [ReadLatestBlock]
    fail.  When its content is empty, or has after its first character
    one that is not a decimal digit (a trailing newline, say), the
    result is a nil block together with a nil error. *)
Theorem ReadLatestBlock_malformed (file : string) (data : bytes) (w : World) :
  file ∉ denied (fs w) →
  files (fs w) !! file = Some data →
  (data = [] ∨
   ∃ c r, String.string_of_list_byte data = String c r ∧ all_digits r = false) →
  ReadLatestBlock file w = (Val (None, None), w).
Proof.
  intros Hnd Hlk Hbad. unfold ReadLatestBlock.
  unfold mbind at 1, M_bind at 1. rewrite (fileExists_present _ _ _ Hnd Hlk).
  unfold mbind at 1, M_bind at 1.
  rewrite (ioutil_ReadFile_present _ _ _ Hnd Hlk).
  destruct Hbad as [-> | (c & r & -> & Hr)]; [done|].
  unfold big_SetString10.
  assert (r ≠ EmptyString) as Hne by (by intros ->).
  repeat case_bool_decide.
  - destruct r; [done|]. by rewrite scan_digits_not_all_digits.
  - destruct r; [done|]. by rewrite scan_digits_not_all_digits.
  - cbn [scan_digits]. destruct (digit_of_ascii c); cbn; [|done].
    by rewrite scan_digits_not_all_digits.
Qed.

Lemma ReadLatestBlock_malformed_witness :
  ReadLatestBlock "data/latest_block" w_newline = (Val (None, None), w_newline).
Proof.
  apply (ReadLatestBlock_malformed "data/latest_block" cursor_newline w_newline).
  - vm_compute. done.
  - vm_compute. done.
  - right. eexists _, _. split; [reflexivity|]. vm_compute. done.
Defined.

(** ** Default paths *)

Lemma homeDir_empty os :
  Getenv_HOME os = EmptyString →
  snd (user_Current os) ≠ None ∨ fst (user_Current os) = EmptyString →
  homeDir os = EmptyString.
Proof.
  intros HH Hu. unfold homeDir. rewrite HH.
  rewrite bool_decide_eq_false_2 by (by intros []).
  destruct (user_Current os) as [usr [e|]]; [done|].
  by destruct Hu.
Qed.

(** X4: the two default files are different paths, the two file names
    under one and the same directory, whenever their paths can be
    computed at all. *)
Theorem default_files_distinct (os : OSEnv) (a b : string) :
  DefaultStakeInfoFile os = Val a →
  DefaultLatestBlockFile os = Val b →
  a ≠ b ∧
  ∃ dir, DefaultDir os = Val dir ∧
         a = dir +:+ "/stake_info.json" ∧ b = dir +:+ "/latest_block".
Proof.
  unfold DefaultStakeInfoFile, DefaultLatestBlockFile.
  destruct (DefaultDir os) as [dir|msg]; [|done].
  intros [= <-] [= <-]. split; [|by exists dir].
  intros Heq. by apply (inj (String.app dir)) in Heq.
Qed.

Lemma default_files_distinct_witness :
  "/home/nulink/NuLinkWatcher/stake_info.json" ≠
  "/home/nulink/NuLinkWatcher/latest_block".
Proof.
  by destruct (default_files_distinct os_linux
                 "/home/nulink/NuLinkWatcher/stake_info.json"
                 "/home/nulink/NuLinkWatcher/latest_block" eq_refl eq_refl).
Defined.

(** X5: [DefaultDir] panics exactly when a home directory is known, the
    system is Windows and [LOCALAPPDATA] is not set; whether the
    fallback directory exists and has entries does not matter, since
    [windowsAppData] is called before that is looked at. *)
Theorem DefaultDir_panics_iff (os : OSEnv) :
  (∃ msg, DefaultDir os = Panic msg) ↔
  homeDir os ≠ EmptyString ∧ GOOS os = "windows" ∧
  Getenv_LOCALAPPDATA os = EmptyString.
Proof.
  unfold DefaultDir, windowsAppData.
  destruct (decide (homeDir os = EmptyString)) as [Hh|Hh].
  { rewrite bool_decide_eq_false_2 by (intros H; by apply H).
    split; [by intros [? [=]] | by intros (H & _)]. }
  rewrite bool_decide_eq_true_2 by done.
  destruct (decide (GOOS os = "darwin")) as [Hd|Hd].
  { rewrite bool_decide_eq_true_2 by done.
    split; [by intros [? [=]] | intros (_ & Hw & _); by rewrite Hd in Hw]. }
  rewrite (bool_decide_eq_false_2 _ Hd).
  destruct (decide (GOOS os = "windows")) as [Hw|Hw].
  2:{ rewrite (bool_decide_eq_false_2 _ Hw).
      split; [by intros [? [=]] | by intros (_ & ? & _)]. }
  rewrite bool_decide_eq_true_2 by done.
  destruct (decide (Getenv_LOCALAPPDATA os = EmptyString)) as [Ha|Ha].
  { rewrite bool_decide_eq_true_2 by done. split; eauto. }
  rewrite (bool_decide_eq_false_2 _ Ha). cbv beta iota zeta.
  destruct (_ || _);
    (split; [by intros [? [=]] | by intros (_ & _ & ?)]).
Qed.

(** X6: with no home directory to be found ([HOME] is empty and the user
    look-up fails or gives nothing), the default directory is the empty
    string on every system, without a panic, and the two default files
    are at the root of the file system. *)
Theorem DefaultDir_no_home (os : OSEnv) :
  Getenv_HOME os = EmptyString →
  snd (user_Current os) ≠ None ∨ fst (user_Current os) = EmptyString →
  DefaultDir os = Val EmptyString ∧
  DefaultStakeInfoFile os = Val "/stake_info.json" ∧
  DefaultLatestBlockFile os = Val "/latest_block".
Proof.
  intros HH Hu. pose proof (homeDir_empty os HH Hu) as Hh.
  assert (DefaultDir os = Val EmptyString) as Hd.
  { unfold DefaultDir. rewrite Hh. by rewrite bool_decide_eq_false_2 by (by intros []). }
  unfold DefaultStakeInfoFile, DefaultLatestBlockFile. by rewrite Hd.
Qed.

Lemma DefaultDir_no_home_witness :
  DefaultStakeInfoFile os_homeless = Val "/stake_info.json".
Proof.
  destruct (DefaultDir_no_home os_homeless) as (_ & H & _);
    [done | by left | exact H].
Defined.

(** ** Stake snapshot builder: what it returns *)

Lemma NewAccountID_length b : length (NewAccountID b) = 32%nat.
Proof.
  unfold NewAccountID.
  rewrite length_take, length_app, length_replicate. lia.
Qed.

Lemma GetStakeInfo_body_inv env i acc w acc' w' :
  GetStakeInfo_body env i acc w = (Val acc', w') →
  ∃ s, acc' = acc ++ [s] ∧ fresh_record s ∧ wf_StakeInfo s.
Proof.
  unfold GetStakeInfo_body.
  destruct (Stakers env i) as [staker [e1|]];
    destruct (StakerInfo env i staker) as [[[v|]] [e2|]];
    msimpl; intros [= <- <-];
    (eexists; split; [reflexivity|]; split; [done|];
     split; [apply NewAccountID_length | done]).
Qed.

Lemma GetStakeInfo_loop_inv env n : ∀ i acc w acc' w',
  Forall (λ s, fresh_record s ∧ wf_StakeInfo s) acc →
  GetStakeInfo_loop env n i acc w = (Val acc', w') →
  Forall (λ s, fresh_record s ∧ wf_StakeInfo s) acc'.
Proof.
  induction n as [|n IH]; intros i acc w acc' w' Hacc; cbn [GetStakeInfo_loop].
  - msimpl. by intros [= <- <-].
  - intros H.
    apply bind_inv in H as [(acc1 & w1 & H1 & H2) | (msg & H1 & ?)]; [|done].
    apply GetStakeInfo_body_inv in H1 as (s & -> & Hs).
    eapply IH; [|exact H2]. apply Forall_app. split; [done|]. by constructor.
Qed.

Lemma GetStakeInfo_returns env w w' infos err :
  GetStakeInfo env w = (Val (infos, err), w') →
  err = None ∧ Forall (λ s, fresh_record s ∧ wf_StakeInfo s) infos.
Proof.
  unfold GetStakeInfo.
  destruct (NewNucypher env) as [e|].
  { msimpl. by intros [= <- <- <-]. }
  destruct (GetStakersLength env) as [len [e|]].
  { msimpl. by intros [= <- <- <-]. }
  intros H.
  apply bind_inv in H as [(u & w1 & H1 & H2) | (msg & H1 & ?)]; [|done].
  apply bind_inv in H2 as [(acc & w2 & H2 & H3) | (msg & H2 & ?)]; [|done].
  msimpl. injection H3 as <- <- <-. split; [done|].
  eapply GetStakeInfo_loop_inv; [|exact H2]. constructor.
Qed.

(** X7: whenever [GetStakeInfo] returns, its error is nil, and every
    record of the snapshot is as built: [IsWork] set, [WorkCount] zero,
    and [Coinbase] the 32-byte account made from the bytes of
    [WorkBase]. *)
Theorem GetStakeInfo_records (env : Env) (w w' : World)
    (infos : StakeInfos) (err : option error) :
  GetStakeInfo env w = (Val (infos, err), w') →
  err = None ∧ Forall (λ s, fresh_record s ∧ wf_StakeInfo s) infos.
Proof. apply GetStakeInfo_returns. Qed.

Lemma GetStakeInfo_records_witness :
  ∃ infos w', GetStakeInfo env_ok w0 = (Val (infos, None), w') ∧
    Forall (λ s, fresh_record s ∧ wf_StakeInfo s) infos.
Proof.
  destruct (GetStakeInfo env_ok w0) as [[[infos err]|msg] w'] eqn:Hrun;
    [|vm_compute in Hrun; discriminate].
  destruct (GetStakeInfo_records env_ok w0 w' infos err Hrun) as [-> HF].
  by exists infos, w'.
Defined.

Lemma Int64_small x : 0 <= x < 2 ^ 63 → Int64 x = x.
Proof.
  intros Hx. unfold Int64.
  destruct (Z.ltb_spec x 0); [lia|].
  rewrite Z.abs_eq by lia. rewrite Z.mod_small by lia.
  apply int64_wrap_small. lia.
Qed.

Lemma GetStakeInfo_loop_enumerates env n : ∀ i acc w,
  (∀ k, (k < n)%nat →
     Value (fst (StakerInfo env (i + Z.of_nat k)
                   (fst (Stakers env (i + Z.of_nat k))))) ≠ None) →
  ∃ w', GetStakeInfo_loop env n i acc w =
          (Val (acc ++ (registry_record env <$>
                          ((λ k, i + Z.of_nat k) <$> seq 0 n))), w').
Proof.
  induction n as [|n IH]; intros i acc w Hval; cbn [GetStakeInfo_loop].
  - exists w. cbn. by rewrite app_nil_r.
  - destruct (Value (fst (StakerInfo env i (fst (Stakers env i))))) as [v|] eqn:Hv.
    2:{ specialize (Hval 0%nat ltac:(lia)). by rewrite Z.add_0_r, Hv in Hval. }
    assert (fst (GetStakeInfo_body env i acc w) =
              Val (acc ++ [registry_record env i])) as Hb.
    { rewrite (GetStakeInfo_body_appends env i acc w v Hv).
      unfold registry_record. by rewrite Hv. }
    unfold mbind, M_bind.
    destruct (GetStakeInfo_body env i acc w) as [r w1]. cbn [fst] in Hb. subst r.
    destruct (IH (i + 1) (acc ++ [registry_record env i]) w1) as [w' Hw'].
    { intros k Hk. specialize (Hval (S k) ltac:(lia)).
      by replace (i + 1 + Z.of_nat k) with (i + Z.of_nat (S k)) by lia. }
    exists w'. rewrite Hw'. do 2 f_equal. rewrite <- app_assoc. f_equal.
    cbn [seq fmap list_fmap]. rewrite Z.add_0_r. f_equal.
    rewrite <- seq_shift, <- !list_fmap_compose.
    apply list_fmap_ext. intros ? k _. cbn. f_equal. lia.
Qed.

(** X8: with [N] stakers in the registry the snapshot has [N / 50]
    records, those of the indices [0], ..., [N / 50 - 1] in that order,
    each built from what the two look-ups handed back; a registry of
    fewer than 50 stakers gives the empty snapshot.  This is when every
    look-up of an info hands back a [Value]. *)
Theorem GetStakeInfo_enumerates (env : Env) (w : World) (N : Z) :
  NewNucypher env = None →
  GetStakersLength env = (N, None) →
  0 <= N < 2 ^ 63 →
  (∀ i, 0 <= i < N / 50 →
     Value (fst (StakerInfo env i (fst (Stakers env i)))) ≠ None) →
  ∃ w', GetStakeInfo env w =
          (Val (registry_record env <$> (Z.of_nat <$> seq 0 (Z.to_nat (N / 50))),
                None), w') ∧
        quiet w w' ∧
        (N < 50 → fst (GetStakeInfo env w) = Val ([], None)).
Proof.
  intros Hnc Hlen HN Hval.
  assert (Z.quot (Int64 N) 50 = N / 50) as Hq
    by (rewrite Int64_small by done; apply Z.quot_div_nonneg; lia).
  destruct (GetStakeInfo_loop_enumerates env (Z.to_nat (N / 50)) 0 []
              (traced w [EvLog LvlInfo "succeeded to get stakes length"]))
    as [w' Hloop].
  { intros k Hk. apply Hval. lia. }
  assert (GetStakeInfo env w =
            (Val (registry_record env <$> (Z.of_nat <$> seq 0 (Z.to_nat (N / 50))),
                  None), w')) as Hrun.
  { unfold GetStakeInfo. rewrite Hnc, Hlen, Hq.
    unfold mbind at 1, M_bind at 1. msimpl. fold (traced w [EvLog LvlInfo "succeeded to get stakes length"]).
    unfold mbind, M_bind in Hloop |- *. rewrite Hloop. done. }
  exists w'. split; [done|]. split; [eapply GetStakeInfo_quiet, Hrun|].
  intros Hsmall. rewrite Hrun. cbn [fst].
  by rewrite Z.div_small by lia.
Qed.

Lemma GetStakeInfo_enumerates_witness :
  fst (GetStakeInfo env_ok w0) =
    Val ([registry_record env_ok 0; registry_record env_ok 1], None).
Proof.
  destruct (GetStakeInfo_enumerates env_ok w0 100) as (w' & Hrun & _);
    [done | done | lia | by intros i _ |].
  by rewrite Hrun.
Defined.

(** ** Deposit-event path: the records it accumulates *)

Lemma be_value_bound bs : (be_value bs < 256 ^ N.of_nat (length bs))%N.
Proof.
  induction bs as [|b bs IH]; [done|].
  unfold be_value. cbn [foldl]. rewrite be_value_foldl.
  cbn [length]. rewrite Nat2N.inj_succ, N.pow_succ_r'.
  pose proof (Byte.to_N_bounded b). nia.
Qed.

Lemma deposit_record_wf lg :
  wf_Log lg →
  fresh_record (deposit_record lg) ∧ wf_StakeInfo (deposit_record lg) ∧
  0 <= LockedBalance (deposit_record lg) < 2 ^ 256 ∧
  Topics lg !! 1%nat = Some (WorkBase (deposit_record lg)).
Proof.
  intros [Ht Hd]. unfold deposit_record.
  destruct (Topics lg !! 1%nat) as [staker|] eqn:Hlk.
  2:{ apply lookup_ge_None in Hlk. lia. }
  pose proof (be_value_bound (take 32 (Data lg))) as Hb.
  rewrite length_take in Hb.
  replace (32 `min` length (Data lg))%nat with 32%nat in Hb by lia.
  change (256 ^ N.of_nat 32)%N with (2 ^ 256)%N in Hb.
  cbn [default]. split; [done|]. split.
  { split; [apply NewAccountID_length | done]. }
  split; [|done]. cbn [LockedBalance]. unfold NewU128.
  change (2 ^ 256) with (Z.of_N (2 ^ 256)). lia.
Qed.

Lemma deposit_of_log_cases lg w r w' :
  deposit_of_log lg w = (r, w') →
  (wf_Log lg ∧ r = Val tt) ∨ (¬ wf_Log lg ∧ w' = w ∧ ∃ msg, r = Panic msg).
Proof.
  unfold deposit_of_log, wf_Log.
  destruct (Topics lg !! 1%nat) as [staker|] eqn:Hlk.
  2:{ apply lookup_ge_None in Hlk. msimpl. intros [= <- <-].
      right. split; [lia | eauto]. }
  apply lookup_lt_Some in Hlk.
  case_decide; msimpl; intros [= <- <-].
  - right. split; [lia | eauto].
  - left. split; [lia | done].
Qed.

(** X9: when the loop over the logs of a block returns, it has appended
    one record per log, in the order of the logs; each record carries the
    second topic of its log as [WorkBase] and the account made from it as
    [Coinbase], is active with a zero [WorkCount], and has a balance
    between 0 and 2^256; so the serializer never refuses what was
    appended. *)
Theorem deposit_loop_records (logs : list Log) (w w' : World) :
  deposit_loop logs w = (Val tt, w') →
  let new := deposit_record <$> logs in
  stakeInfoList w' = stakeInfoList w ++ new ∧
  Forall2 (λ lg s, Topics lg !! 1%nat = Some (WorkBase s)) logs new ∧
  Forall (λ s, fresh_record s ∧ wf_StakeInfo s ∧
               0 <= LockedBalance s < 2 ^ 256) new ∧
  snd (rlp_EncodeToBytes new) = None.
Proof.
  intros Hrun.
  assert (Forall wf_Log logs) as Hwf.
  { revert w Hrun. induction logs as [|lg logs IH]; intros w Hrun; [constructor|].
    cbn [deposit_loop] in Hrun.
    apply bind_inv in Hrun as [(u & w1 & H1 & H2) | (msg & H1 & ?)]; [|done].
    apply deposit_of_log_cases in H1 as [[Hlg _] | (_ & _ & msg & [=])].
    constructor; [done | by eapply IH]. }
  destruct (deposit_loop_spec logs w Hwf) as (w1 & H1 & _ & Hacc & _).
  rewrite Hrun in H1. injection H1 as <-.
  cbn zeta. split; [done|].
  assert (Forall (λ s, fresh_record s ∧ wf_StakeInfo s ∧
                       0 <= LockedBalance s < 2 ^ 256 )
            (deposit_record <$> logs)) as Hall.
  { apply Forall_fmap. eapply Forall_impl; [exact Hwf|].
    intros lg Hlg. cbn. destruct (deposit_record_wf lg Hlg) as (? & ? & ? & _).
    done. }
  split; [|split; [done|]].
  - apply Forall2_fmap_r, Forall_Forall2_diag.
    eapply Forall_impl; [exact Hwf|]. intros lg Hlg.
    by destruct (deposit_record_wf lg Hlg) as (_ & _ & _ & ?).
  - unfold rlp_EncodeToBytes.
    assert (forallb (λ s, 0 <=? LockedBalance s) (deposit_record <$> logs) = true)
      as ->; [|done].
    apply forallb_forall. intros s Hs%list_elem_of_In.
    rewrite Forall_forall in Hall. apply Hall in Hs as (_ & _ & Hb). lia.
Qed.

Lemma deposit_loop_records_witness :
  stakeInfoList (snd (deposit_loop [log_deposit] w_pending)) =
    [recOf addrA 500; deposit_record log_deposit].
Proof.
  assert (fst (deposit_loop [log_deposit] w_pending) = Val tt) as Hr
    by (vm_compute; reflexivity).
  destruct (deposit_loop [log_deposit] w_pending) as [r w'] eqn:Hrun.
  cbn in Hr. subst r.
  destruct (deposit_loop_records [log_deposit] w_pending w' Hrun) as [Hacc _].
  cbn [snd]. by rewrite Hacc.
Defined.

Lemma deposit_loop_panics good bad rest : ∀ w,
  Forall wf_Log good → ¬ wf_Log bad →
  ∃ msg w', deposit_loop (good ++ bad :: rest) w = (Panic msg, w') ∧
    fs w' = fs w ∧
    stakeInfoList w' = stakeInfoList w ++ (deposit_record <$> good) ∧
    ∃ tr, trace w' = trace w ++ tr ∧ Forall is_log tr.
Proof.
  induction good as [|lg good IH]; intros w Hgood Hbad.
  - cbn [app deposit_loop]. unfold mbind, M_bind.
    destruct (deposit_of_log bad w) as [r w1] eqn:H1.
    apply deposit_of_log_cases in H1 as [[? _] | (_ & -> & msg & ->)]; [done|].
    exists msg, w. cbn. rewrite app_nil_r. repeat split.
    exists []. by rewrite app_nil_r.
  - inversion Hgood as [|? ? Hlg Hrest]; subst.
    destruct (deposit_of_log_spec lg w Hlg) as (w1 & H1 & Hf1 & Ha1 & t1 & Ht1 & Hl1).
    destruct (IH w1 Hrest Hbad) as (msg & w2 & H2 & Hf2 & Ha2 & t2 & Ht2 & Hl2).
    exists msg, w2. cbn [app deposit_loop]. unfold mbind at 1, M_bind at 1.
    rewrite H1. split; [done|]. split; [congruence|]. split.
    + rewrite Ha2, Ha1. cbn. by rewrite <- app_assoc.
    + exists (t1 ++ t2). rewrite Ht2, Ht1, <- app_assoc.
      split; [done|]. by apply Forall_app.
Qed.

(** X10: a log with fewer than two topics, or with less than 32 bytes of
    data, panics [getDepositEventsForBlock].  By then the records of the
    logs before it are in the accumulator; nothing is submitted, the
    accumulator is not reset and no file is touched. *)
Theorem getDepositEventsForBlock_malformed_log (P : Params) (env : Env) (h : Z)
    (w : World) (good rest : list Log) (bad : Log) :
  FilterLogs env h = (good ++ bad :: rest, None) →
  Forall wf_Log good →
  ¬ wf_Log bad →
  ∃ msg w', getDepositEventsForBlock P env h w = (Panic msg, w') ∧
    stakeInfoList w' = stakeInfoList w ++ (deposit_record <$> good) ∧
    fs w' = fs w ∧
    ∃ tr, trace w' = trace w ++ tr ∧ Forall is_log tr.
Proof.
  intros Hlogs Hgood Hbad. unfold getDepositEventsForBlock.
  unfold mbind at 1, M_bind at 1. msimpl. rewrite Hlogs.
  destruct (deposit_loop_panics good bad rest
              (traced w [EvLog LvlInfo "Querying block for deposit events"])
              Hgood Hbad)
    as (msg & w' & Hrun & Hfs & Hacc & tr & Ht & Hl).
  unfold traced in Hrun. rewrite Hrun.
  exists msg, w'. split; [done|]. split; [done|]. split; [done|].
  exists (EvLog LvlInfo "Querying block for deposit events" :: tr).
  rewrite Ht. cbn. rewrite <- app_assoc. split; [done|]. by constructor.
Qed.

Lemma getDepositEventsForBlock_malformed_log_witness :
  ∃ msg, fst (getDepositEventsForBlock P0 env_short_log 1000 w_pending) = Panic msg.
Proof.
  destruct (getDepositEventsForBlock_malformed_log P0 env_short_log 1000
              w_pending [log_deposit] [] log_short)
    as (msg & w' & Hrun & _).
  - reflexivity.
  - constructor; [|constructor]. split; cbn; lia.
  - intros [_ Hd]. cbn in Hd. lia.
  - exists msg. by rewrite Hrun.
Defined.

(** ** Epoch synchronizer: what a run may touch *)

Lemma WriteStakeInfos_frame file infos w r w' :
  WriteStakeInfos file infos w = (r, w') →
  stakeInfoList w' = stakeInfoList w ∧ denied (fs w') = denied (fs w) ∧
  ∀ p, p ≠ file → files (fs w') !! p = files (fs w) !! p.
Proof.
  unfold WriteStakeInfos. intros H.
  apply bind_inv in H as [(err & w1 & H1 & H2) | (msg & H1 & ?)];
    apply ensure_dir_spec in H1 as (err' & mk & Herr & _ & _ & Hf & Hd & Ha);
    [|done].
  destruct err as [e|].
  { msimpl. injection H2 as <- <-. by rewrite Hf. }
  destruct (rlp_EncodeToBytes infos) as [data [e|]].
  { msimpl. injection H2 as <- <-. cbn. by rewrite Hf. }
  apply bind_inv in H2 as [(err & w2 & H2 & H3) | (msg & H2 & ?)].
  2:{ apply ioutil_WriteFile_spec in H2 as [(? & _) | (? & ? & _)]; done. }
  apply ioutil_WriteFile_spec in H2 as [([= ->] & Hnd & ->) | (e & [= ->] & ->)];
    msimpl; injection H3 as <- <-; cbn; rewrite ?Hf; (split; [done|]);
    (split; [done|]); intros p Hp; [|done].
  by rewrite lookup_insert_ne.
Qed.

Lemma WriteLatestBlock_frame file number w r w' :
  WriteLatestBlock file number w = (r, w') →
  stakeInfoList w' = stakeInfoList w ∧ denied (fs w') = denied (fs w) ∧
  ∀ p, p ≠ file → files (fs w') !! p = files (fs w) !! p.
Proof.
  unfold WriteLatestBlock. intros H.
  apply bind_inv in H as [(err & w1 & H1 & H2) | (msg & H1 & ?)];
    apply ensure_dir_spec in H1 as (err' & mk & Herr & _ & _ & Hf & Hd & Ha);
    [|done].
  destruct err as [e|].
  { msimpl. injection H2 as <- <-. by rewrite Hf. }
  apply bind_inv in H2 as [(err & w2 & H2 & H3) | (msg & H2 & ?)].
  2:{ apply ioutil_WriteFile_spec in H2 as [(? & _) | (? & ? & _)]; done. }
  apply ioutil_WriteFile_spec in H2 as [([= ->] & Hnd & ->) | (e & [= ->] & ->)];
    msimpl; injection H3 as <- <-; cbn; rewrite ?Hf; (split; [done|]);
    (split; [done|]); intros p Hp; [|done].
  by rewrite lookup_insert_ne.
Qed.

Lemma commit_frame (l : Listener) top20 h w r w' :
  (err ← WriteStakeInfos (LastStakeInfoPath l) top20;
   match err with
   | Some e => mret (Some e)
   | None =>
       err ← WriteLatestBlock (LatestBlockPath l) h;
       match err with
       | Some e =>
           log LvlError "Failed to write latest block";;
           mret (Some e)
       | None => mret None
       end
   end) w = (r, w') →
  stakeInfoList w' = stakeInfoList w ∧ denied (fs w') = denied (fs w) ∧
  ∀ p, p ≠ LastStakeInfoPath l → p ≠ LatestBlockPath l →
    files (fs w') !! p = files (fs w) !! p.
Proof.
  intros H5.
  apply bind_inv in H5 as [(err & w5 & H5 & H6) | (msg & H5 & ->)];
    apply WriteStakeInfos_frame in H5 as (Ha1 & Hd1 & Hf1).
  2:{ split; [done|]. split; [done|]. auto. }
  destruct err as [e5|].
  { injection H6 as <- <-. split; [done|]. split; [done|]. auto. }
  apply bind_inv in H6 as [(err & w6 & H6 & H7) | (msg & H6 & ->)];
    apply WriteLatestBlock_frame in H6 as (Ha2 & Hd2 & Hf2).
  2:{ split; [congruence|]. split; [congruence|].
      intros p ? ?. by rewrite Hf2, Hf1. }
  destruct err as [e6|]; msimpl; injection H7 as <- <-; cbn;
    (split; [congruence|]); (split; [congruence|]);
    intros p ? ?; by rewrite Hf2, Hf1.
Qed.

(** Every run of [syncStakeInfos], sorted by how far it got. *)
Lemma syncStakeInfos_cases P l env h w r w' :
  syncStakeInfos P l env h w = (r, w') →
  stakeInfoList w' = stakeInfoList w ∧ denied (fs w') = denied (fs w) ∧
  (∀ p, p ≠ LastStakeInfoPath l → p ≠ LatestBlockPath l →
     files (fs w') !! p = files (fs w) !! p) ∧
  ∃ tr, trace w' = trace w ++ tr ∧
    ((fs w' = fs w ∧ Forall is_log tr) ∨
     (∃ logs payload res post,
        tr = logs ++ EvSubmitTx payload res :: post ∧
        Forall is_log logs ∧ Forall (λ e, is_log e ∨ is_write e) post ∧
        (res ≠ None → fs w' = fs w ∧ Forall is_log post))).
Proof.
  unfold syncStakeInfos. intros H.
  assert (∀ w1, quiet w w1 →
            stakeInfoList w1 = stakeInfoList w ∧
            denied (fs w1) = denied (fs w) ∧
            (∀ p, p ≠ LastStakeInfoPath l → p ≠ LatestBlockPath l →
               files (fs w1) !! p = files (fs w) !! p) ∧
            ∃ tr, trace w1 = trace w ++ tr ∧
              ((fs w1 = fs w ∧ Forall is_log tr) ∨
               (∃ logs payload res post,
                  tr = logs ++ EvSubmitTx payload res :: post ∧
                  Forall is_log logs ∧
                  Forall (λ e, is_log e ∨ is_write e) post ∧
                  (res ≠ None → fs w1 = fs w ∧ Forall is_log post)))) as Hquiet.
  { intros w1 (Hf & Ha & tr & Ht & Hl). rewrite Hf.
    split; [done|]. split; [done|]. split; [done|].
    exists tr. split; [done|]. by left. }
  destruct (negb _).
  { msimpl. injection H as <- <-. apply Hquiet, quiet_refl. }
  apply bind_inv in H as [([stakeInfos err] & w1 & H1 & H2) | (msg & H1 & ->)];
    apply GetStakeInfo_quiet in H1 as Hq1; [|by apply Hquiet].
  destruct err as [e1|].
  { msimpl. injection H2 as <- <-. by apply Hquiet. }
  apply bind_inv in H2 as [([lastInfos err] & w2 & H2 & H3) | (msg & H2 & ->)];
    apply ReadStakeInfos_quiet in H2 as [Hq2 _];
    pose proof (quiet_trans _ _ _ Hq1 Hq2) as Hq; [|by apply Hquiet].
  destruct err as [e2|].
  { msimpl. injection H3 as <- <-. by apply Hquiet. }
  destruct Hq as (Hfs & Hacc & trq & Htq & Hlq).
  apply bind_inv in H3 as [(err & w3 & H3 & H4) | (msg & H3 & ->)];
    rewrite Subconn_SubmitTx_spec in H3; [|done].
  injection H3 as <- <-.
  set (infos := LockedBalanceTop20 stakeInfos ++ _) in *.
  destruct (SubmitTx env infos) as [e3|] eqn:Hsub.
  - msimpl. injection H4 as <- <-. cbn. rewrite Hfs.
    split; [done|]. split; [done|]. split; [done|].
    eexists. rewrite Htq, <- !app_assoc. split; [done|]. right.
    exists trq, infos, (Some e3),
      [EvLog LvlError "failed to update stake info to nulink"].
    split; [done|]. split; [done|]. split; [solve_Forall|].
    intros _. split; [done | solve_Forall].
  - apply bind_inv in H4 as [(u & w4 & H4 & H5) | (msg & H4 & ->)].
    2:{ by apply quiet_log in H4 as [? _]. }
    msimpl. injection H4 as <- <-.
    pose proof (commit_frame _ _ _ _ _ _ H5) as (Ha & Hd & Hf).
    apply commit_footprint in H5 as (tr2 & Ht2 & Hl2). cbn in Ha, Hd, Hf, Ht2.
    split; [congruence|]. split; [by rewrite Hd, Hfs|].
    split; [intros p ? ?; by rewrite Hf, Hfs|].
    eexists. rewrite Ht2, Htq, <- !app_assoc. split; [done|]. right.
    exists trq, infos, None,
      (EvLog LvlInfo "succeeded to update stake info to nulink" :: tr2).
    split; [done|]. split; [done|]. split; [|done].
    constructor; [by left | done].
Qed.

(** X11: a run of [syncStakeInfos], however it ends, writes only after a
    submission that was answered without error: any write in its trace
    has such a submission before it, and a run without one leaves the
    file system as it was. *)
Theorem syncStakeInfos_writes_after_submission (P : Params) (l : Listener)
    (env : Env) (h : Z) (w w' : World) (r : Res (option error))
    (tr : list Event) :
  syncStakeInfos P l env h w = (r, w') →
  trace w' = trace w ++ tr →
  (∀ pre ev post, tr = pre ++ ev :: post → is_write ev →
     ∃ payload, EvSubmitTx payload None ∈ pre) ∧
  ((∀ payload, EvSubmitTx payload None ∉ tr) → fs w' = fs w).
Proof.
  intros Hrun Ht.
  destruct (syncStakeInfos_cases _ _ _ _ _ _ _ Hrun)
    as (_ & _ & _ & tr' & Ht' & Hcases).
  rewrite Ht in Ht'. apply app_inv_head in Ht'. subst tr'.
  destruct Hcases as [[Hfs Hl] | (logs & payload & res & post & -> & Hl & Hp & Hres)].
  - split; [|done]. intros pre ev post -> Hw.
    apply Forall_app in Hl as [_ [Hev _]%Forall_cons].
    by destruct ev.
  - split.
    + intros pre ev post' Heq Hw.
      apply app_eq_inv in Heq as [(k & -> & Hk) | (k & -> & Hk)].
      * destruct k as [|a k]; cbn in Hk; injection Hk as -> ?; [done|].
        apply Forall_app in Hl as [_ [Hev _]%Forall_cons].
        by destruct a.
      * destruct k as [|a k]; cbn in Hk; injection Hk as <- ->; [done|].
        destruct res as [e|].
        { destruct Hres as [_ Hlp]; [done|].
          apply Forall_app in Hlp as [_ [Hev _]%Forall_cons].
          by destruct ev. }
        exists payload. apply elem_of_app. right. apply list_elem_of_here.
    + intros Hno. destruct res as [e|]; [by apply Hres|].
      destruct (Hno payload). apply elem_of_app. right. apply list_elem_of_here.
Qed.

Lemma syncStakeInfos_writes_after_submission_witness :
  ∃ payload,
    EvSubmitTx payload None ∈ trace (snd (syncStakeInfos P0 l0 env_ok 1000 w0)).
Proof.
  destruct (syncStakeInfos P0 l0 env_ok 1000 w0) as [r w'] eqn:Hrun.
  destruct (syncStakeInfos_writes_after_submission P0 l0 env_ok 1000 w0 w' r
              (trace w') Hrun eq_refl) as [Hw _].
  assert (∃ pre data post,
            trace w' = pre ++ EvWriteFile "data/stake_info" data :: post)
    as (pre & data & post & Htr).
  { vm_compute in Hrun. injection Hrun as _ <-. cbn [trace].
    eexists [_; _; _; _; _; _; _], _, _. reflexivity. }
  destruct (Hw pre _ post Htr I) as [payload Hin].
  exists payload. cbn [snd]. rewrite Htr. apply elem_of_app. by left.
Defined.

Lemma syncStakeInfos_commit_inv P l env h w w' :
  Uint64 h mod EpochLength P = 0 →
  LastStakeInfoPath l ≠ LatestBlockPath l →
  syncStakeInfos P l env h w = (Val None, w') →
  ∃ stakeInfos wa data,
    GetStakeInfo env w = (Val (stakeInfos, None), wa) ∧
    rlp_EncodeToBytes (LockedBalanceTop20 stakeInfos) = (data, None) ∧
    files (fs w') !! LastStakeInfoPath l = Some data ∧
    files (fs w') !! LatestBlockPath l = Some (bytes_of_string (pretty h)) ∧
    (LastStakeInfoPath l ∉ denied (fs w')) ∧
    (LatestBlockPath l ∉ denied (fs w')).
Proof.
  intros Hep Hne H. unfold syncStakeInfos in H. rewrite Hep in H.
  cbn [Z.eqb negb] in H.
  apply bind_inv in H as [([stakeInfos err] & wa & H1 & H2) | (msg & H1 & ?)];
    [|done].
  destruct err as [e1|]; [by msimpl|].
  apply bind_inv in H2 as [([lastInfos err] & wb & H2 & H3) | (msg & H2 & ?)];
    [|done].
  destruct err as [e2|]; [by msimpl|].
  apply bind_inv in H3 as [(err & wc & H3 & H4) | (msg & H3 & ?)]; [|done].
  rewrite Subconn_SubmitTx_spec in H3. injection H3 as <- <-.
  destruct (SubmitTx env _) as [e3|]; [by msimpl|].
  apply bind_inv in H4 as [(u & w1 & H4 & H5) | (msg & H4 & ?)]; [|done].
  msimpl. injection H4 as <- <-.
  apply bind_inv in H5 as [(err & w2 & H5 & H6) | (msg & H5 & ?)]; [|done].
  destruct err as [e5|]; [by msimpl|].
  apply bind_inv in H6 as [(err & w3 & H6 & H7) | (msg & H6 & ?)]; [|done].
  destruct err as [e6|]; [by msimpl|].
  injection H7 as <-.
  pose proof (WriteStakeInfos_success _ _ _ _ H5)
    as (data & mk1 & Henc & _ & _ & Hf1 & Hd1 & Hnd1 & _).
  pose proof (WriteLatestBlock_success _ _ _ _ H6)
    as (mk2 & _ & _ & Hf2 & Hd2 & _).
  pose proof (WriteLatestBlock_written _ _ _ _ H6) as [Hlk2 Hnd2].
  exists stakeInfos, wa, data.
  split; [done|]. split; [done|].
  split; [by rewrite Hf2, lookup_insert_ne, Hf1, lookup_insert_eq|].
  split; [done|]. split; [|done].
  by rewrite Hd2, Hd1.
Qed.

Lemma LockedBalanceTop20_Forall (Q : StakeInfo → Prop) (S : StakeInfos) :
  Forall Q S → Forall Q (LockedBalanceTop20 S).
Proof.
  intros HQ. unfold LockedBalanceTop20. apply Forall_take.
  by rewrite sort_desc_Permutation.
Qed.

(** X12: what a successful epoch commit at height [h] leaves on disk is
    read back as it was written: [ReadStakeInfos] returns the ranking of
    the snapshot that [GetStakeInfo] built in this run, and
    [ReadLatestBlock] returns [h], the height just processed.  The two
    paths are different files, and the snapshot file is shorter than
    2^64 bytes. *)
Theorem syncStakeInfos_persisted (P : Params) (l : Listener) (env : Env)
    (h : Z) (w w' : World) :
  Uint64 h mod EpochLength P = 0 →
  LastStakeInfoPath l ≠ LatestBlockPath l →
  syncStakeInfos P l env h w = (Val None, w') →
  Z.of_nat (length (default [] (files (fs w') !! LastStakeInfoPath l))) < 2 ^ 64 →
  ∃ stakeInfos wa,
    GetStakeInfo env w = (Val (stakeInfos, None), wa) ∧
    ReadStakeInfos (LastStakeInfoPath l) w' =
      (Val (LockedBalanceTop20 stakeInfos, None), w') ∧
    ReadLatestBlock (LatestBlockPath l) w' = (Val (Some h, None), w').
Proof.
  intros Hep Hne Hrun Hsmall.
  destruct (syncStakeInfos_commit_inv P l env h w w' Hep Hne Hrun)
    as (stakeInfos & wa & data & Hget & Henc & Hs & Hc & Hnds & Hndc).
  rewrite Hs in Hsmall. cbn [default] in Hsmall.
  exists stakeInfos, wa. split; [done|].
  apply GetStakeInfo_returns in Hget as [_ Hwf].
  assert (Forall wf_StakeInfo (LockedBalanceTop20 stakeInfos)) as Hwf'.
  { apply LockedBalanceTop20_Forall.
    eapply Forall_impl; [exact Hwf|]. by intros s [_ ?]. }
  destruct (rlp_DecodeBytes_EncodeToBytes _ data Hwf' Henc Hsmall) as [Hdec Hne'].
  split.
  - unfold ReadStakeInfos.
    unfold mbind at 1, M_bind at 1.
    rewrite (fileExists_present _ _ _ Hnds Hs). cbn [negb].
    unfold mbind at 1, M_bind at 1.
    rewrite (ioutil_ReadFile_present _ _ _ Hnds Hs).
    destruct (Nat.eqb_spec (length data) 0) as [Hz|_].
    { by apply nil_length_inv in Hz. }
    by rewrite Hdec.
  - unfold ReadLatestBlock.
    unfold mbind at 1, M_bind at 1. rewrite (fileExists_present _ _ _ Hndc Hc).
    unfold mbind at 1, M_bind at 1.
    rewrite (ioutil_ReadFile_present _ _ _ Hndc Hc).
    unfold bytes_of_string.
    by rewrite String.string_of_list_byte_of_string, big_SetString10_pretty.
Qed.

Lemma syncStakeInfos_persisted_witness :
  ReadLatestBlock "data/latest_block"
    (snd (syncStakeInfos P0 l0 env_ok 1000 w0)) =
  (Val (Some 1000, None), snd (syncStakeInfos P0 l0 env_ok 1000 w0)).
Proof.
  assert (fst (syncStakeInfos P0 l0 env_ok 1000 w0) = Val None) as Hr
    by (vm_compute; reflexivity).
  assert (Z.of_nat (length (default [] (files (fs (snd
            (syncStakeInfos P0 l0 env_ok 1000 w0))) !! "data/stake_info")))
          < 2 ^ 64) as Hsmall by (vm_compute; reflexivity).
  destruct (syncStakeInfos P0 l0 env_ok 1000 w0) as [r w'] eqn:Hrun.
  cbn in Hr. subst r.
  destruct (syncStakeInfos_persisted P0 l0 env_ok 1000 w0 w')
    as (si & wa & _ & _ & Hc); [done | done | done | exact Hsmall | exact Hc].
Defined.

(** ** Block poller: what a run may touch *)

Lemma PollBlocks_iter_frame P l env h retry w r w' :
  PollBlocks_iter P l env h retry w = (r, w') →
  stakeInfoList w' = stakeInfoList w ∧ denied (fs w') = denied (fs w) ∧
  (∀ p, p ≠ LastStakeInfoPath l → p ≠ LatestBlockPath l →
     files (fs w') !! p = files (fs w) !! p) ∧
  ∃ tr, trace w' = trace w ++ tr.
Proof.
  unfold PollBlocks_iter.
  destruct (StopRequested env).
  { msimpl. intros [= <- <-]. repeat split. exists []. by rewrite app_nil_r. }
  destruct (retry =? 0).
  { msimpl. intros [= <- <-]. cbn. repeat split. rewrite <- app_assoc. eauto. }
  destruct (LatestBlock env) as [L [e|]].
  { msimpl. intros [= <- <-]. cbn. repeat split. rewrite <- app_assoc. eauto. }
  destruct (_ =? -1).
  { msimpl. intros [= <- <-]. cbn. repeat split. rewrite <- app_assoc. eauto. }
  intros H.
  apply bind_inv in H as [(err & w1 & H1 & H2) | (msg & H1 & ->)];
    apply syncStakeInfos_cases in H1 as (Ha & Hd & Hf & tr & Ht & _).
  2:{ split; [done|]. split; [done|]. split; [done|]. eauto. }
  destruct err as [e|]; msimpl; injection H2 as <- <-; cbn.
  - split; [done|]. split; [done|]. split; [done|].
    rewrite Ht, <- app_assoc. eauto.
  - split; [done|]. split; [done|]. split; [done|]. eauto.
Qed.

Lemma PollBlocks_loop_frame P l envs fuel : ∀ i h retry w r w',
  PollBlocks_loop fuel P l envs i h retry w = (r, w') →
  stakeInfoList w' = stakeInfoList w ∧ denied (fs w') = denied (fs w) ∧
  (∀ p, p ≠ LastStakeInfoPath l → p ≠ LatestBlockPath l →
     files (fs w') !! p = files (fs w) !! p) ∧
  ∃ tr, trace w' = trace w ++ tr.
Proof.
  induction fuel as [|fuel IH]; intros i h retry w r w'; cbn [PollBlocks_loop].
  - msimpl. intros [= <- <-]. repeat split. exists []. by rewrite app_nil_r.
  - intros H.
    apply bind_inv in H as [(s & w1 & H1 & H2) | (msg & H1 & ->)];
      apply PollBlocks_iter_frame in H1 as (Ha & Hd & Hf & tr & Ht); [|eauto].
    destruct s as [h1 r1|err].
    + apply IH in H2 as (Ha2 & Hd2 & Hf2 & tr2 & Ht2).
      split; [congruence|]. split; [congruence|].
      split; [intros p ? ?; by rewrite Hf2, Hf|].
      exists (tr ++ tr2). by rewrite Ht2, Ht, <- app_assoc.
    + msimpl. injection H2 as <- <-. eauto.
Qed.

(** X13: a run of [PollBlocks], of any length and however it ends, never
    touches the accumulator [stakeInfoList] (the deposit path is not
    called from the loop), writes no file but the snapshot file and the
    cursor file, and only adds to the trace. *)
Theorem PollBlocks_frame (fuel : nat) (P : Params) (l : Listener)
    (envs : nat → Env) (w w' : World) (r : Res (option (option error))) :
  PollBlocks fuel P l envs w = (r, w') →
  stakeInfoList w' = stakeInfoList w ∧
  (∀ p, p ≠ LastStakeInfoPath l → p ≠ LatestBlockPath l →
     files (fs w') !! p = files (fs w) !! p) ∧
  ∃ tr, trace w' = trace w ++ tr.
Proof.
  unfold PollBlocks. intros H.
  apply bind_inv in H as [(u & w1 & H1 & H2) | (msg & H1 & ->)].
  2:{ by apply quiet_log in H1 as [? _]. }
  apply quiet_log in H1 as [_ (Hf & Ha & tr1 & Ht1 & _)].
  apply PollBlocks_loop_frame in H2 as (Ha2 & _ & Hf2 & tr2 & Ht2).
  split; [congruence|]. split.
  - intros p ? ?. by rewrite Hf2, Hf.
  - exists (tr1 ++ tr2). by rewrite Ht2, Ht1, <- app_assoc.
Qed.

Lemma PollBlocks_frame_witness :
  stakeInfoList (snd (PollBlocks 3 P0 l0 (λ _, env_ok) w_pending)) =
    [recOf addrA 500].
Proof.
  destruct (PollBlocks 3 P0 l0 (λ _, env_ok) w_pending) as [r w'] eqn:Hrun.
  destruct (PollBlocks_frame 3 P0 l0 (λ _, env_ok) w_pending w' r Hrun)
    as [Hacc _].
  cbn [snd]. by rewrite Hacc.
Defined.

(** ** Block poller: passes without progress, passes between epochs *)

Lemma traced_app w tr1 tr2 : traced (traced w tr1) tr2 = traced w (tr1 ++ tr2).
Proof. unfold traced. cbn. by rewrite <- app_assoc. Qed.

Lemma PollBlocks_iter_no_progress P l env h retry w :
  no_progress l h env → retry ≠ 0 →
  PollBlocks_iter P l env h retry w =
    (Val (Continue h (if fetch_fails env then int64_wrap (retry - 1) else retry)),
     traced w (pass_events P env)).
Proof.
  intros [Hstop Hwait] Hretry. unfold PollBlocks_iter, pass_events, fetch_fails in *.
  rewrite Hstop. destruct (Z.eqb_spec retry 0) as [|_]; [done|].
  destruct (LatestBlock env) as [L [e|]]; cbn [fst snd] in *.
  - msimpl. unfold traced. by rewrite <- app_assoc.
  - rewrite big_Cmp_lt. specialize (Hwait eq_refl).
    destruct (Z.ltb_spec (L - h) (BlockConfirmations (Config l))); [|lia].
    msimpl. unfold traced. by rewrite <- app_assoc.
Qed.

Lemma passes_S envs i n : passes envs i (S n) = envs i :: passes envs (S i) n.
Proof. reflexivity. Qed.

Lemma failures_cons env envs :
  failures (env :: envs) =
    ((if fetch_fails env then 1 else 0) + failures envs)%nat.
Proof.
  unfold failures. rewrite filter_cons.
  destruct (fetch_fails env); by case_decide.
Qed.

(** X14: passes that make no progress at a height (the fetch of the
    latest block fails, or the block is not yet confirmed) leave the loop
    at that height with the retry budget lowered by the number of failed
    fetches among them, as long as that number is below the budget: a
    wait costs nothing, but it does not refill the budget either, so the
    failures that use it up need not come in a row.  The world changes by
    log lines and sleeps only. *)
Theorem PollBlocks_no_progress (P : Params) (l : Listener) (envs : nat → Env)
    (h : Z) (n : nat) : ∀ (i fuel : nat) (retry : Z) (w : World),
  0 <= retry < 2 ^ 63 →
  (∀ k, (k < n)%nat → no_progress l h (envs (i + k)%nat)) →
  Z.of_nat (failures (passes envs i n)) < retry →
  PollBlocks_loop (n + fuel) P l envs i h retry w =
  PollBlocks_loop fuel P l envs (i + n) h
    (retry - Z.of_nat (failures (passes envs i n)))
    (traced w (mjoin (pass_events P <$> passes envs i n))).
Proof.
  induction n as [|n IH]; intros i fuel retry w Hretry Hnp Hf.
  - cbn. rewrite Nat.add_0_r, Z.sub_0_r. by rewrite traced_nil.
  - rewrite passes_S, failures_cons in *.
    cbn [Nat.add PollBlocks_loop]. unfold mbind at 1, M_bind at 1.
    pose proof (Hnp 0%nat ltac:(lia)) as H0. rewrite Nat.add_0_r in H0.
    rewrite (PollBlocks_iter_no_progress P l (envs i) h retry w H0) by lia.
    rewrite IH.
    + replace (S i + n)%nat with (i + S n)%nat by lia.
      rewrite traced_app. cbn [fmap list_fmap mjoin list_join].
      f_equal. destruct (fetch_fails (envs i));
        [rewrite int64_wrap_small by lia|]; lia.
    + destruct (fetch_fails (envs i));
        [rewrite int64_wrap_small by lia|]; lia.
    + intros k Hk. replace (S i + k)%nat with (i + S k)%nat by lia.
      apply Hnp. lia.
    + destruct (fetch_fails (envs i));
        [rewrite int64_wrap_small by lia|]; lia.
Qed.

Lemma PollBlocks_no_progress_witness :
  PollBlocks_loop 4 P0 l0 envs_flaky 0 1000 5 w0 =
  PollBlocks_loop 1 P0 l0 envs_flaky 3 1000 3
    (traced w0 [EvLog LvlError "Unable to get latest block"; EvSleep 1;
                EvLog LvlDebug "Block not ready, will retry"; EvSleep 1;
                EvLog LvlError "Unable to get latest block"; EvSleep 1]).
Proof.
  apply (PollBlocks_no_progress P0 l0 envs_flaky 1000 3 0 1 5 w0).
  - lia.
  - intros [|[|[|k]]] Hk; [| | |lia]; (split; [done|]); cbn; [done | lia | done].
  - vm_compute. reflexivity.
Defined.

Lemma syncStakeInfos_off_epoch P l env h w :
  Uint64 h mod EpochLength P ≠ 0 → syncStakeInfos P l env h w = (Val None, w).
Proof.
  intros Hne. unfold syncStakeInfos.
  by destruct (Z.eqb_spec (Uint64 h mod EpochLength P) 0).
Qed.

(** X15: over heights that are confirmed and are not multiples of the
    epoch length the loop moves on one height per pass and leaves the
    world exactly as it was: nothing is fetched from the registry,
    nothing is submitted, and the cursor file is not written.  The
    retry limit is taken not to be zero (a limit of zero ends the loop at
    its next pass). *)
Theorem PollBlocks_between_epochs (P : Params) (l : Listener)
    (envs : nat → Env) (n : nat) : ∀ (i fuel : nat) (h retry : Z) (w : World),
  retry ≠ 0 →
  BlockRetryLimit P ≠ 0 →
  (∀ k, (k < n)%nat →
     confirmed l (h + Z.of_nat k) (envs (i + k)%nat) ∧
     Uint64 (h + Z.of_nat k) mod EpochLength P ≠ 0) →
  PollBlocks_loop (n + fuel) P l envs i h retry w =
  PollBlocks_loop fuel P l envs (i + n) (h + Z.of_nat n)
    (if n is O then retry else BlockRetryLimit P) w.
Proof.
  induction n as [|n IH]; intros i fuel h retry w Hretry HR Hc.
  - cbn. by rewrite Nat.add_0_r, Z.add_0_r.
  - cbn [Nat.add PollBlocks_loop]. unfold mbind at 1, M_bind at 1.
    destruct (Hc 0%nat ltac:(lia)) as [(Hs & He & HD) Hep].
    rewrite Nat.add_0_r, Z.add_0_r in *.
    destruct (LatestBlock (envs i)) as [L err] eqn:HL. cbn [fst snd] in *. subst err.
    rewrite (PollBlocks_iter_process P l (envs i) h retry L w Hs Hretry HL HD).
    rewrite syncStakeInfos_off_epoch by done.
    rewrite IH; [| done | done |].
    + replace (S i + n)%nat with (i + S n)%nat by lia.
      replace (h + 1 + Z.of_nat n) with (h + Z.of_nat (S n)) by lia.
      by destruct n.
    + intros k Hk. replace (S i + k)%nat with (i + S k)%nat by lia.
      replace (h + 1 + Z.of_nat k) with (h + Z.of_nat (S k)) by lia.
      apply Hc. lia.
Qed.

Lemma PollBlocks_between_epochs_witness :
  PollBlocks_loop 4 P0 l0 (λ _, env_at 2000) 0 1001 5 w0 =
  PollBlocks_loop 1 P0 l0 (λ _, env_at 2000) 3 1004 5 w0.
Proof.
  apply (PollBlocks_between_epochs P0 l0 (λ _, env_at 2000) 3 0 1 1001 5 w0).
  - done.
  - done.
  - intros [|[|[|k]]] Hk; [| | |lia]; (split; [split; [done|]; split; [done|]; cbn; lia|]);
      vm_compute; done.
Defined.

(** ** Persistence layer: edges *)

Lemma fileExists_absent file w :
  absent file (fs w) → fileExists file w = (Val (false, None), w).
Proof.
  intros (Hnd & Hnf & Hndir). unfold fileExists, os_Stat. msimpl.
  destruct (decide (file ∈ denied (fs w))); [done|].
  destruct (decide (is_Some (files (fs w) !! file) ∨ file ∈ dirs (fs w)))
    as [[[x Hx]|Hx]|_]; [congruence | done | done].
Qed.

(** X16: [ReadStakeInfos] never hands back records together with an
    error: whenever its error is not nil the snapshot is empty.  And it
    only reads: all it may leave behind is log lines. *)
Theorem ReadStakeInfos_error_empty (file : string) (w w' : World)
    (r : Res (result StakeInfos)) :
  ReadStakeInfos file w = (r, w') →
  quiet w w' ∧
  ∃ infos err, r = Val (infos, err) ∧ (err ≠ None → infos = []).
Proof.
  intros H. split; [by apply ReadStakeInfos_quiet in H as [? _]|].
  unfold ReadStakeInfos in H.
  apply bind_inv in H as [([ex err] & w1 & H1 & H2) | (msg & H1 & ->)];
    apply fileExists_pure in H1 as [-> [v Hv]]; [|done].
  destruct err as [e|].
  { msimpl. injection H2 as <- <-. eauto. }
  destruct ex; cbn [negb] in H2.
  2:{ msimpl. injection H2 as <- <-. eauto. }
  apply bind_inv in H2 as [([data err] & w1 & H1 & H2) | (msg & H1 & ->)];
    apply ioutil_ReadFile_pure in H1 as [-> [v' Hv']]; [|done].
  destruct err as [e|].
  { msimpl. injection H2 as <- <-. eauto. }
  destruct (length data =? 0)%nat.
  { msimpl. injection H2 as <- <-. eauto. }
  destruct (rlp_DecodeBytes data) as [infos [e|]];
    msimpl; injection H2 as <- <-; eauto.
  eexists _, _. split; [done|]. by intros [].
Qed.

Lemma ReadStakeInfos_error_empty_witness :
  ∃ infos err,
    fst (ReadStakeInfos "data/latest_block" w_newline) = Val (infos, err) ∧
    (err ≠ None → infos = []).
Proof.
  destruct (ReadStakeInfos "data/latest_block" w_newline) as [r w'] eqn:Hrun.
  by destruct (ReadStakeInfos_error_empty _ _ _ _ Hrun) as [_ H].
Defined.

(** X17: with no snapshot file, or with an empty one, [ReadStakeInfos]
    returns the empty snapshot and a nil error: a first run starts from
    nothing, it does not fail. *)
Theorem ReadStakeInfos_first_run (file : string) (w : World) :
  absent file (fs w) ∨
  ((file ∉ denied (fs w)) ∧ files (fs w) !! file = Some []) →
  ∃ msg, ReadStakeInfos file w = (Val ([], None), traced w [EvLog LvlWarn msg]).
Proof.
  intros [Habs | [Hnd Hlk]]; unfold ReadStakeInfos.
  - unfold mbind at 1, M_bind at 1. rewrite (fileExists_absent _ _ Habs).
    cbn [negb]. by eexists.
  - unfold mbind at 1, M_bind at 1. rewrite (fileExists_present _ _ _ Hnd Hlk).
    cbn [negb]. unfold mbind at 1, M_bind at 1.
    rewrite (ioutil_ReadFile_present _ _ _ Hnd Hlk). cbn [length Nat.eqb].
    by eexists.
Qed.

Lemma ReadStakeInfos_first_run_witness :
  fst (ReadStakeInfos "data/stake_info" w0) = Val ([], None) ∧
  fst (ReadStakeInfos "data/stake_info" w_empty_file) = Val ([], None).
Proof.
  split.
  - destruct (ReadStakeInfos_first_run "data/stake_info" w0) as [msg ->];
      [left; by vm_compute | done].
  - destruct (ReadStakeInfos_first_run "data/stake_info" w_empty_file)
      as [msg ->]; [right; by vm_compute | done].
Defined.

(** X18: a first epoch.  At an epoch boundary, with no snapshot file on
    disk, [syncStakeInfos] submits the ranking of the snapshot that
    [GetStakeInfo] built, and nothing else: there is no stopped entry in
    the payload. *)
Theorem syncStakeInfos_first_run (P : Params) (l : Listener) (env : Env)
    (h : Z) (w wa : World) (stakeInfos : StakeInfos) :
  Uint64 h mod EpochLength P = 0 →
  absent (LastStakeInfoPath l) (fs w) →
  GetStakeInfo env w = (Val (stakeInfos, None), wa) →
  let payload := LockedBalanceTop20 stakeInfos in
  ∃ r w' post, syncStakeInfos P l env h w = (r, w') ∧
    trace w' = trace wa ++
      [EvLog LvlWarn "stake info file does not exist";
       EvSubmitTx payload (SubmitTx env payload)] ++ post ∧
    Forall (λ e, is_log e ∨ is_write e) post.
Proof.
  intros Hep Habs Hget payload.
  destruct (syncStakeInfos P l env h w) as [r w'] eqn:H. exists r, w'.
  unfold syncStakeInfos in H. rewrite Hep in H. cbn [Z.eqb negb] in H.
  apply bind_inv in H as [(x & w1 & H1 & H2) | (msg & H1 & _)];
    rewrite Hget in H1; [|done].
  injection H1 as <- <-.
  pose proof (GetStakeInfo_quiet _ _ _ _ Hget) as (Hfs & _).
  assert (absent (LastStakeInfoPath l) (fs wa)) as Habs' by (by rewrite Hfs).
  apply bind_inv in H2 as [(x & wb & H2 & H3) | (msg & H2 & _)].
  2:{ apply ReadStakeInfos_quiet in H2 as [_ [? ?]]. done. }
  unfold ReadStakeInfos in H2. unfold mbind at 1, M_bind at 1 in H2.
  rewrite (fileExists_absent _ _ Habs') in H2. cbn [negb] in H2.
  unfold mbind, mret, M_bind, M_ret, log, emit in H2. injection H2 as <- <-.
  cbn [stopped_loop] in H3. rewrite app_nil_r in H3. fold payload in H3.
  apply bind_inv in H3 as [(err & wc & H3 & H4) | (msg & H3 & _)];
    rewrite Subconn_SubmitTx_spec in H3; [|done].
  injection H3 as <- <-. cbn [trace] in H4.
  destruct (SubmitTx env payload) as [e|].
  - msimpl. injection H4 as <- <-. eexists. cbn [trace].
    rewrite <- !app_assoc. split; [reflexivity|]. split; [reflexivity|].
    solve_Forall.
  - apply bind_inv in H4 as [(u & wd & H4 & H5) | (msg & H4 & _)]; [|done].
    msimpl. injection H4 as <- <-.
    apply commit_footprint in H5 as (tr & Ht & Hl). cbn in Ht.
    exists (EvLog LvlInfo "succeeded to update stake info to nulink" :: tr).
    split; [done|]. rewrite Ht, <- !app_assoc. split; [done|].
    constructor; [by left | done].
Qed.

Lemma syncStakeInfos_first_run_witness :
  EvSubmitTx [recOf addrB 501; recOf addrA 500] None ∈
    trace (snd (syncStakeInfos P0 l0 env_ok 1000 w0)).
Proof.
  destruct (GetStakeInfo env_ok w0) as [rg wa] eqn:Hget.
  assert (rg = Val ([recOf addrA 500; recOf addrB 501], None)) as ->
    by (vm_compute in Hget; by injection Hget as <- _).
  destruct (syncStakeInfos_first_run P0 l0 env_ok 1000 w0 wa
              [recOf addrA 500; recOf addrB 501] eq_refl)
    as (r & w' & post & -> & Ht & _); [by vm_compute | exact Hget |].
  cbn [snd]. rewrite Ht. apply elem_of_app. right.
  apply list_elem_of_further, list_elem_of_here.
Defined.

(** X19: a snapshot that the serializer refuses is not written:
    [WriteStakeInfos] returns an error and the content of every file is
    as before (the directory may have been made by then). *)
Theorem WriteStakeInfos_unencodable (file : string) (infos : StakeInfos)
    (w w' : World) (r : Res (option error)) :
  snd (rlp_EncodeToBytes infos) ≠ None →
  WriteStakeInfos file infos w = (r, w') →
  (∃ e, r = Val (Some e)) ∧ files (fs w') = files (fs w).
Proof.
  intros Henc H. unfold WriteStakeInfos in H.
  apply bind_inv in H as [(err & w1 & H1 & H2) | (msg & H1 & ?)];
    apply ensure_dir_spec in H1 as (err' & mk & Herr & _ & _ & Hf & _);
    [|done].
  destruct err as [e|].
  { msimpl. injection H2 as <- <-. eauto. }
  destruct (rlp_EncodeToBytes infos) as [data [e|]]; [|done].
  msimpl. injection H2 as <- <-. cbn. eauto.
Qed.

Lemma WriteStakeInfos_unencodable_witness :
  ∃ e, fst (WriteStakeInfos "data/stake_info"
              [{| Coinbase := NewAccountID addrA; WorkBase := addrA; IsWork := true;
                 LockedBalance := -1; WorkCount := 0 |}] w0) = Val (Some e).
Proof.
  destruct (WriteStakeInfos "data/stake_info"
              [{| Coinbase := NewAccountID addrA; WorkBase := addrA; IsWork := true;
                 LockedBalance := -1; WorkCount := 0 |}] w0)
    as [r w'] eqn:Hrun.
  apply WriteStakeInfos_unencodable in Hrun as [[e ->] _]; [|by vm_compute].
  by exists e.
Defined.
